(** * Landmark identification: the label-matching cascade of the
      image-processing Lambda, and the two name normalisers.

    The development embeds [normalizeLandmarkName] (both copies),
    [calculateSimilarity], [isLandmarkRelatedLabel] and the decision part of
    [identifyLandmark] (everything after the Rekognition call) as Rocq
    functions and proves properties of them.

    Modelling conventions.
    - A JavaScript string is a [string]: a sequence of code units.  The
      model covers code units 0..255 (the Latin-1 block), with the case
      mapping and the whitespace class JavaScript gives them.
    - A JavaScript number is an exact rational ([Q]).  Rounding of IEEE
      doubles is outside the model; computed numbers are compared
      with [==].
    - A missing object field, [null] and [undefined] are [None]. *)

From Stdlib Require Import String Ascii List Bool Arith NArith ZArith Lia.
From Stdlib Require Import QArith Qminmax Lqa.
Import ListNotations.

Local Open Scope string_scope.
Local Open Scope list_scope.

(** ** Characters *)

Module Char.

Definition code (c : ascii) : N := N_of_ascii c.

(** [String.prototype.toLowerCase] on one code unit below 256: A-Z and the
    Latin-1 capitals (all of 0xC0..0xDE but the multiplication sign). *)
Definition toLowerCase (c : ascii) : ascii :=
  let n := code c in
  if ((65 <=? n) && (n <=? 90))%N then ascii_of_N (n + 32)
  else if ((192 <=? n) && (n <=? 222) && negb (n =? 215))%N
       then ascii_of_N (n + 32)
       else c.

(** The class [\s] of a regular expression, which is also what [trim]
    strips: tab, line feed, vertical tab, form feed, carriage return,
    space and no-break space. *)
Definition isSpace (c : ascii) : bool :=
  let n := code c in
  (((9 <=? n) && (n <=? 13)) || (n =? 32) || (n =? 160))%N.

(** The class [\w]: [A-Za-z0-9_]. *)
Definition isWord (c : ascii) : bool :=
  let n := code c in
  (((48 <=? n) && (n <=? 57)) || ((65 <=? n) && (n <=? 90))
   || ((97 <=? n) && (n <=? 122)) || (n =? 95))%N.

End Char.

(** ** Strings *)

Module Str.

Fixpoint toLowerCase (s : string) : string :=
  match s with
  | EmptyString => EmptyString
  | String c s' => String (Char.toLowerCase c) (toLowerCase s')
  end.

(** [s.replace(/\s+/g, '')]: every maximal run of whitespace is replaced
    by the empty string, which deletes exactly the whitespace code units. *)
Fixpoint removeWhitespace (s : string) : string :=
  match s with
  | EmptyString => EmptyString
  | String c s' =>
      if Char.isSpace c then removeWhitespace s'
      else String c (removeWhitespace s')
  end.

Fixpoint trimStart (s : string) : string :=
  match s with
  | EmptyString => EmptyString
  | String c s' => if Char.isSpace c then trimStart s' else s
  end.

Fixpoint trimEnd (s : string) : string :=
  match s with
  | EmptyString => EmptyString
  | String c s' =>
      match trimEnd s' with
      | EmptyString => if Char.isSpace c then EmptyString
                       else String c EmptyString
      | t => String c t
      end
  end.

Definition trim (s : string) : string := trimEnd (trimStart s).

Definition isEmpty (s : string) : bool :=
  match s with EmptyString => true | _ => false end.

(** [s.includes(sub)]: [sub] occurs in [s] as a contiguous substring. *)
Fixpoint includes (s sub : string) : bool :=
  if String.prefix sub s then true
  else match s with
       | EmptyString => false
       | String _ s' => includes s' sub
       end.

(** [s.split(/\W+/)]: [cur] is the piece being read, [inSep] tells that the
    previous code unit belonged to a separator run. *)
Fixpoint splitNonWordFrom (s cur : string) (inSep : bool) : list string :=
  match s with
  | EmptyString => [cur]
  | String c s' =>
      if Char.isWord c
      then splitNonWordFrom s' (cur ++ String c EmptyString) false
      else if inSep then splitNonWordFrom s' cur true
           else cur :: splitNonWordFrom s' EmptyString true
  end.

Definition splitNonWord (s : string) : list string :=
  splitNonWordFrom s EmptyString false.

(** Every code unit of [s] passes the test [p]. *)
Fixpoint all (p : ascii -> bool) (s : string) : bool :=
  match s with
  | EmptyString => true
  | String c s' => p c && all p s'
  end.

(** [arr.includes(x)] on an array of strings. *)
Definition arrayIncludes (arr : list string) (x : string) : bool :=
  existsb (String.eqb x) arr.

End Str.

(** ** The two normalisers *)

(** [normalizeLandmarkName] of the image-processing Lambda:
    [name.toLowerCase().replace(/\s+/g, '')], the empty string being falsy. *)
Definition normalizeLandmarkName (name : string) : string :=
  if Str.isEmpty name then ""
  else Str.removeWhitespace (Str.toLowerCase name).

(** The argument as JavaScript sees it: [None] is [null] or [undefined]. *)
Definition normalizeLandmarkNameOf (name : option string) : string :=
  match name with
  | None => ""
  | Some s => normalizeLandmarkName s
  end.

Module DynamoData.

(** [normalizeLandmarkName] of the table-seeding Lambda:
    [name.toLowerCase().trim().replace(/\s+/g, '')]. *)
Definition normalizeLandmarkName (name : string) : string :=
  if Str.isEmpty name then ""
  else Str.removeWhitespace (Str.trim (Str.toLowerCase name)).

Definition normalizeLandmarkNameOf (name : option string) : string :=
  match name with
  | None => ""
  | Some s => normalizeLandmarkName s
  end.

End DynamoData.

(** ** Numbers *)

Local Open Scope Q_scope.

(** An array length or a counter as a number. *)
Definition num (n : nat) : Q := inject_Z (Z.of_nat n).

(** [a < b] on numbers; [a <= b] is [Qle_bool a b]. *)
Definition Qltb (a b : Q) : bool := negb (Qle_bool b a).

(** ** The similarity score *)

Definition nonEmpty (word : string) : bool := (0 <? String.length word)%nat.

(** The body of the inner loop of the word-overlap count: the first
    long-enough [word2] equal to, inside or around [word1] ends the search. *)
Fixpoint findPartner (word1 : string) (words2 : list string) : bool :=
  match words2 with
  | [] => false
  | word2 :: rest =>
      if (String.length word2 <=? 2)%nat then findPartner word1 rest
      else if String.eqb word1 word2 || Str.includes word1 word2
              || Str.includes word2 word1
           then true
           else findPartner word1 rest
  end.

(** The outer loop: [matchCount] after all of [words1] has been visited. *)
Fixpoint countMatches (words1 words2 : list string) : nat :=
  match words1 with
  | [] => 0%nat
  | word1 :: rest =>
      if (String.length word1 <=? 2)%nat then countMatches rest words2
      else if findPartner word1 words2 then S (countMatches rest words2)
           else countMatches rest words2
  end.

Definition words (normalizedStr : string) : list string :=
  filter nonEmpty (Str.splitNonWord normalizedStr).

Definition calculateSimilarity (str1 str2 : string) : Q :=
  let normalizedStr1 := normalizeLandmarkName str1 in
  let normalizedStr2 := normalizeLandmarkName str2 in
  if String.eqb normalizedStr1 normalizedStr2 then 1
  else if Str.includes normalizedStr1 normalizedStr2
          || Str.includes normalizedStr2 normalizedStr1
  then
    let containmentScore :=
      num (Nat.min (String.length normalizedStr1) (String.length normalizedStr2))
      / num (Nat.max (String.length normalizedStr1) (String.length normalizedStr2)) in
    Qmax 0.7 containmentScore
  else
    let words1 := words normalizedStr1 in
    let words2 := words normalizedStr2 in
    if (1 <? List.length words1)%nat || (1 <? List.length words2)%nat then
      let matchCount := countMatches words1 words2 in
      let overlapScore :=
        num matchCount / num (Nat.max (List.length words1) (List.length words2)) in
      if Qltb 0 overlapScore then Qmin 0.9 (0.5 + overlapScore * 0.4)
      else 0
    else 0.

(** ** Landmark-related labels *)

Definition landmarkKeywords : list string :=
  [ "landmark"; "monument"; "tower"; "statue"; "temple"; "palace";
    "castle"; "cathedral"; "church"; "mosque"; "pyramid"; "ruins";
    "historical"; "heritage"; "ancient"; "architecture"; "wonder";
    "famous"; "tourist"; "attraction"; "site"; "building"; "structure" ].

Definition isLandmarkRelatedLabel (label : string) : bool :=
  let normalizedLabel := normalizeLandmarkName label in
  existsb (fun keyword => Str.includes normalizedLabel keyword) landmarkKeywords.

(** ** Data of the cascade *)

(** One entry of [labelResults.Labels]. *)
Record Label := mkLabel { Name : string; Confidence : Q }.

Record LandmarkDef := mkDef {
  primaryName : string;
  alternativeNames : list string;
  keywords : list string
}.

Inductive MatchType := exact | alternative | similarity | keyword | unknown.

Definition matchTypeString (t : MatchType) : string :=
  match t with
  | exact => "exact"
  | alternative => "alternative"
  | similarity => "similarity"
  | keyword => "keyword"
  | unknown => "unknown"
  end.

(** The object [identifyLandmark] returns; a field the object literal does
    not have is [None]. *)
Record Result := mkResult {
  isLandmark : bool;
  landmarkName : string;
  rawLandmarkName : option string;
  detectedLabels : list Label;
  matchType : option MatchType;
  confidence : option Q;
  similarityScore : option Q;
  matchScore : option Q
}.

Definition landmarkDefinitions : list LandmarkDef :=
  [ mkDef "Eiffel Tower"
      ["Tour Eiffel"; "Iron Lady"; "La Tour Eiffel"]
      ["paris"; "france"; "iron"; "tower"];
    mkDef "Statue of Liberty"
      ["Liberty Enlightening the World"; "Lady Liberty"]
      ["new york"; "liberty island"; "usa"; "america"];
    mkDef "Colosseum"
      ["Coliseum"; "Flavian Amphitheatre"; "Roman Colosseum"]
      ["rome"; "italy"; "arena"; "amphitheater"; "gladiator"];
    mkDef "Great Wall of China"
      ["Great Wall"; "Chinese Wall"]
      ["china"; "wall"; "beijing"; "defense"];
    mkDef "Machu Picchu"
      ["Lost City of the Incas"]
      ["peru"; "inca"; "ruins"; "andes"];
    mkDef "Pyramids of Giza"
      ["Great Pyramid"; "Egyptian Pyramids"; "Pyramid of Khufu"]
      ["egypt"; "pyramid"; "pharaoh"; "cairo"; "sphinx"];
    mkDef "Taj Mahal"
      ["Crown of Palaces"]
      ["india"; "agra"; "mausoleum"; "marble"; "mughal"];
    mkDef "Big Ben"
      ["Elizabeth Tower"; "Clock Tower"; "Westminster Clock"]
      ["london"; "england"; "uk"; "parliament"; "westminster"; "clock"];
    mkDef "Sydney Opera House"
      ["Opera House"]
      ["sydney"; "australia"; "harbor"; "theatre"; "concert hall"];
    mkDef "Mount Fuji"
      ["Fujisan"; "Fuji-san"; "Fujiyama"]
      ["japan"; "mountain"; "volcano"; "peak"] ].

Definition genericTerms : list string :=
  ["Landmark"; "Monument"; "Architecture"; "Building"; "Structure"].

(** Truthiness of a value that is a string or [null]. *)
Definition truthy (s : option string) : bool :=
  match s with
  | Some s => negb (Str.isEmpty s)
  | None => false
  end.

(** The first element of [l] on which [f] answers, as a loop that returns
    from inside its body does. *)
Fixpoint firstSome {A B : Type} (f : A -> option B) (l : list A) : option B :=
  match l with
  | [] => None
  | x :: rest =>
      match f x with
      | Some y => Some y
      | None => firstSome f rest
      end
  end.

(** [arr.sort((a, b) => b.Confidence - a.Confidence)]: the sort is stable,
    so the result is the one of inserting from the right, each label going
    in front of the first one that is not strictly more confident. *)
Fixpoint insertByConfidence (x : Label) (sorted : list Label) : list Label :=
  match sorted with
  | [] => [x]
  | y :: rest =>
      if Qltb (Confidence x) (Confidence y)
      then y :: insertByConfidence x rest
      else x :: sorted
  end.

Fixpoint sortByConfidenceDesc (l : list Label) : list Label :=
  match l with
  | [] => []
  | x :: rest => insertByConfidence x (sortByConfidenceDesc rest)
  end.

(** ** The cascade of [identifyLandmark]

    [labels] is [labelResults.Labels]; [detected] is [detectedLabels], the
    same entries copied into the result.  The catalogue [defs] is an
    argument here and is [landmarkDefinitions] in [identifyLandmark]. *)

Definition popularDestinations (defs : list LandmarkDef) : list string :=
  map primaryName defs.

Definition atLeast (threshold : Q) (label : Label) : bool :=
  Qle_bool threshold (Confidence label).

(** *** First pass: exact matches with primary names *)

Definition exactResult (detected : list Label) (label : Label) : Result :=
  mkResult true (normalizeLandmarkName (Name label)) (Some (Name label))
           detected (Some exact) (Some (Confidence label)) None None.

Definition isExactLabel (defs : list LandmarkDef) (label : Label) : bool :=
  Str.arrayIncludes (popularDestinations defs) (Name label) && atLeast 75 label.

Definition firstPass (defs : list LandmarkDef) (labels : list Label)
  : option Result :=
  firstSome (fun label =>
               if isExactLabel defs label then Some (exactResult labels label)
               else None)
            labels.

(** *** Second pass: matches with alternative names *)

Definition alternativeResult (detected : list Label) (label : Label)
    (landmarkDef : LandmarkDef) : Result :=
  mkResult true (normalizeLandmarkName (primaryName landmarkDef))
           (Some (primaryName landmarkDef))
           detected (Some alternative) (Some (Confidence label)) None None.

Definition secondPass (defs : list LandmarkDef) (labels : list Label)
  : option Result :=
  firstSome (fun label =>
     firstSome (fun landmarkDef =>
        if Str.arrayIncludes (alternativeNames landmarkDef) (Name label)
           && atLeast 75 label
        then Some (alternativeResult labels label landmarkDef)
        else None)
       defs)
    labels.

(** *** Third pass: similarity matches *)

Record Best := mkBest {
  bestMatch : option string;
  bestScore : Q;
  bestConfidence : Q
}.

(** The local [similarityScore] of one (label, definition) pair: the score
    against the primary name, raised by every alternative name that scores
    strictly higher. *)
Definition pairSimilarity (label : Label) (landmarkDef : LandmarkDef) : Q :=
  fold_left (fun similarityScore altName =>
               let altSimilarityScore := calculateSimilarity (Name label) altName in
               if Qltb similarityScore altSimilarityScore
               then altSimilarityScore else similarityScore)
            (alternativeNames landmarkDef)
            (calculateSimilarity (Name label) (primaryName landmarkDef)).

(** [combinedScore] of the loop body.  The product is exact here, while the
    code multiplies doubles and rounds: the two can differ in the last
    place, and with them the winner of a near tie.  The properties below
    that involve it are about which results are possible, never about the
    digits of the product or the winner among pairs whose exact products
    are equal or adjacent. *)
Definition combinedScore (label : Label) (landmarkDef : LandmarkDef) : Q :=
  pairSimilarity label landmarkDef * (Confidence label / 100).

Definition thirdStepDef (label : Label) (best : Best) (landmarkDef : LandmarkDef)
  : Best :=
  if Qle_bool 0.7 (pairSimilarity label landmarkDef)
     && Qltb (bestScore best) (combinedScore label landmarkDef)
  then mkBest (Some (primaryName landmarkDef))
              (combinedScore label landmarkDef) (Confidence label)
  else best.

Definition thirdStepLabel (defs : list LandmarkDef) (best : Best) (label : Label)
  : Best :=
  if Qltb (Confidence label) 70 then best
  else fold_left (thirdStepDef label) defs best.

Definition thirdLoop (defs : list LandmarkDef) (labels : list Label) : Best :=
  fold_left (thirdStepLabel defs) labels (mkBest None 0 0).

Definition similarityResult (detected : list Label) (best : Best) : Result :=
  mkResult true (normalizeLandmarkNameOf (bestMatch best)) (bestMatch best)
           detected (Some similarity) (Some (bestConfidence best))
           (Some (bestScore best)) None.

Definition thirdPass (defs : list LandmarkDef) (labels : list Label)
  : option Result :=
  let best := thirdLoop defs labels in
  if truthy (bestMatch best) then Some (similarityResult labels best)
  else None.

(** *** Fourth pass: landmark-related labels with high confidence *)

Definition landmarkLabels (labels : list Label) : list Label :=
  filter (fun label => isLandmarkRelatedLabel (Name label) && atLeast 85 label)
         labels.

Definition nonGenericLabels (labels : list Label) : list Label :=
  filter (fun label =>
            negb (Str.arrayIncludes genericTerms (Name label))
            && atLeast 75 label)
         labels.

Definition keywordMatches (bestLabel : Label) (landmarkDef : LandmarkDef)
  : list string :=
  let normalizedLabel := normalizeLandmarkName (Name bestLabel) in
  filter (fun keyword =>
            Str.includes normalizedLabel (normalizeLandmarkName keyword))
         (keywords landmarkDef).

(** One turn of the loop over the catalogue; the state is
    [(bestLandmarkMatch, bestMatchScore)]. *)
Definition keywordStep (bestLabel : Label) (st : option string * Q)
    (landmarkDef : LandmarkDef) : option string * Q :=
  let similarityScore := calculateSimilarity (Name bestLabel) (primaryName landmarkDef) in
  let st1 :=
    if Qltb (snd st) similarityScore
    then (Some (primaryName landmarkDef), similarityScore)
    else st in
  let matches := List.length (keywordMatches bestLabel landmarkDef) in
  let fraction := num matches / num (List.length (keywords landmarkDef)) in
  if (0 <? matches)%nat && Qltb (snd st1) fraction
  then (Some (primaryName landmarkDef), fraction)
  else st1.

Definition keywordLoop (defs : list LandmarkDef) (bestLabel : Label)
  : option string * Q :=
  fold_left (keywordStep bestLabel) defs (None, 0).

Definition keywordResult (detected : list Label) (bestLabel : Label)
    (st : option string * Q) : Result :=
  mkResult true (normalizeLandmarkNameOf (fst st)) (fst st)
           detected (Some keyword) (Some (Confidence bestLabel))
           None (Some (snd st)).

Definition unknownResult (detected : list Label) (bestLabel : Label) : Result :=
  mkResult true (normalizeLandmarkName (Name bestLabel)) (Some (Name bestLabel))
           detected (Some unknown) (Some (Confidence bestLabel)) None None.

Definition fourthPass (defs : list LandmarkDef) (labels : list Label)
  : option Result :=
  if (0 <? List.length (landmarkLabels labels))%nat then
    match sortByConfidenceDesc (nonGenericLabels labels) with
    | [] => None
    | bestLabel :: _ =>
        let st := keywordLoop defs bestLabel in
        if truthy (fst st) && Qle_bool 0.3 (snd st)
        then Some (keywordResult labels bestLabel st)
        else if atLeast 85 bestLabel
                && (2 <=? List.length (landmarkLabels labels))%nat
             then Some (unknownResult labels bestLabel)
             else None
    end
  else None.

(** *** No landmark detected *)

Definition noLandmark (detected : list Label) : Result :=
  mkResult false "Unknown Landmark" None detected None None None None.

Definition identifyLandmarkWith (defs : list LandmarkDef) (labels : list Label)
  : Result :=
  match firstPass defs labels with
  | Some r => r
  | None =>
  match secondPass defs labels with
  | Some r => r
  | None =>
  match thirdPass defs labels with
  | Some r => r
  | None =>
  match fourthPass defs labels with
  | Some r => r
  | None => noLandmark labels
  end end end end.

Definition identifyLandmark (labels : list Label) : Result :=
  identifyLandmarkWith landmarkDefinitions labels.

(** ** Predicates used in the statements *)

(** A code unit a normalised name may hold: no whitespace, and its own
    lower-case form. *)
Definition isNormalChar (c : ascii) : bool :=
  negb (Char.isSpace c) && Ascii.eqb (Char.toLowerCase c) c.

(** [sub] occurs in [s]: some code units, then [sub], then some more. *)
Definition isSubstring (sub s : string) : Prop :=
  exists pre post : string, s = (pre ++ sub ++ post)%string.

(** The containment score of step 2: shorter length over longer length. *)
Definition lengthRatio (s1 s2 : string) : Q :=
  num (Nat.min (String.length s1) (String.length s2))
  / num (Nat.max (String.length s1) (String.length s2)).

(** Tokens the word-overlap count looks at: those longer than two. *)
Definition longWords (ws : list string) : list string :=
  filter (fun w => (2 <? String.length w)%nat) ws.

(** The test of the inner loop: equal, or one inside the other. *)
Definition isPartner (word1 word2 : string) : bool :=
  String.eqb word1 word2 || Str.includes word1 word2
  || Str.includes word2 word1.

(** [overlapScore] as the function computes it from two normalised
    strings: the denominator counts every non-empty token. *)
Definition overlapScore (normalizedStr1 normalizedStr2 : string) : Q :=
  num (countMatches (words normalizedStr1) (words normalizedStr2))
  / num (Nat.max (List.length (words normalizedStr1))
                 (List.length (words normalizedStr2))).

(** The guard of the word-overlap step. *)
Definition multiWord (normalizedStr1 normalizedStr2 : string) : bool :=
  (1 <? List.length (words normalizedStr1))%nat
  || (1 <? List.length (words normalizedStr2))%nat.

(** The overlap as the specification words it: short tokens are dropped
    from both lists before the count and before the denominator. *)
Definition specOverlap (normalizedStr1 normalizedStr2 : string) : Q :=
  let tokens1 := longWords (words normalizedStr1) in
  let tokens2 := longWords (words normalizedStr2) in
  num (countMatches tokens1 tokens2)
  / num (Nat.max (List.length tokens1) (List.length tokens2)).

(** The four ways out of [calculateSimilarity]. *)
Inductive SimilarityCase (a b : string) : Prop :=
| SimEqual :
    normalizeLandmarkName a = normalizeLandmarkName b ->
    calculateSimilarity a b = 1 ->
    SimilarityCase a b
| SimContainment :
    normalizeLandmarkName a <> normalizeLandmarkName b ->
    Str.includes (normalizeLandmarkName a) (normalizeLandmarkName b)
    || Str.includes (normalizeLandmarkName b) (normalizeLandmarkName a) = true ->
    calculateSimilarity a b
    = Qmax 0.7 (lengthRatio (normalizeLandmarkName a) (normalizeLandmarkName b)) ->
    SimilarityCase a b
| SimOverlap :
    normalizeLandmarkName a <> normalizeLandmarkName b ->
    Str.includes (normalizeLandmarkName a) (normalizeLandmarkName b)
    || Str.includes (normalizeLandmarkName b) (normalizeLandmarkName a) = false ->
    multiWord (normalizeLandmarkName a) (normalizeLandmarkName b) = true ->
    0 < overlapScore (normalizeLandmarkName a) (normalizeLandmarkName b) ->
    calculateSimilarity a b
    = Qmin 0.9 (0.5 + overlapScore (normalizeLandmarkName a)
                                   (normalizeLandmarkName b) * 0.4) ->
    SimilarityCase a b
| SimNone :
    normalizeLandmarkName a <> normalizeLandmarkName b ->
    Str.includes (normalizeLandmarkName a) (normalizeLandmarkName b)
    || Str.includes (normalizeLandmarkName b) (normalizeLandmarkName a) = false ->
    multiWord (normalizeLandmarkName a) (normalizeLandmarkName b) = false
    \/ ~ 0 < overlapScore (normalizeLandmarkName a) (normalizeLandmarkName b) ->
    calculateSimilarity a b = 0 ->
    SimilarityCase a b.

(** The word-overlap step as the specification words it, for two strings
    whose normalised forms differ and do not contain one another. *)
Definition specWordOverlapStep (a b : string) : Prop :=
  normalizeLandmarkName a <> normalizeLandmarkName b ->
  ~ isSubstring (normalizeLandmarkName b) (normalizeLandmarkName a) ->
  ~ isSubstring (normalizeLandmarkName a) (normalizeLandmarkName b) ->
  0 < specOverlap (normalizeLandmarkName a) (normalizeLandmarkName b) ->
  calculateSimilarity a b
  == Qmin 0.9 (0.5 + specOverlap (normalizeLandmarkName a)
                                 (normalizeLandmarkName b) * 0.4).

(** [bestLabel] of the fourth pass: the head of the sorted non-generic
    labels, when there is one. *)
Definition bestLabelOf (labels : list Label) : option Label :=
  hd_error (sortByConfidenceDesc (nonGenericLabels labels)).

(** The keyword match taken alone: what the fourth pass returns before it
    considers the unknown-landmark fallback. *)
Definition keywordTier (defs : list LandmarkDef) (labels : list Label)
  : option Result :=
  if (0 <? List.length (landmarkLabels labels))%nat then
    match bestLabelOf labels with
    | Some bestLabel =>
        let st := keywordLoop defs bestLabel in
        if truthy (fst st) && Qle_bool 0.3 (snd st)
        then Some (keywordResult labels bestLabel st)
        else None
    | None => None
    end
  else None.

(** [b] is the most confident entry of [l], and the first of those that
    are as confident. *)
Definition isFirstMostConfident (l : list Label) (b : Label) : Prop :=
  exists pre post : list Label,
    l = pre ++ b :: post
    /\ (forall x, In x pre -> Confidence x < Confidence b)
    /\ (forall x, In x post -> Confidence x <= Confidence b).

(** The first-tier property as the specification words it: a label that
    normalises to a normalised primary name, at confidence 75 or more,
    makes the result an exact match on that entity. *)
Definition specExactTier (labels : list Label) : Prop :=
  forall (label : Label) (def : LandmarkDef),
    In label labels -> In def landmarkDefinitions ->
    normalizeLandmarkName (Name label) = normalizeLandmarkName (primaryName def) ->
    75 <= Confidence label ->
    matchType (identifyLandmark labels) = Some exact
    /\ landmarkName (identifyLandmark labels)
       = normalizeLandmarkName (primaryName def).

(** The invariant of a result as the specification words it. *)
Definition specResultInvariant (r : Result) : Prop :=
  (isLandmark r = true <-> matchType r <> None)
  /\ (isLandmark r = true ->
      exists raw, rawLandmarkName r = Some raw
                  /\ landmarkName r = normalizeLandmarkName raw)
  /\ (isLandmark r = false ->
      landmarkName r = "" /\ rawLandmarkName r = None).

(** The invariant the results have. *)
Definition resultInvariant (r : Result) : Prop :=
  (isLandmark r = true <-> matchType r <> None)
  /\ (isLandmark r = true ->
      exists raw, rawLandmarkName r = Some raw
                  /\ landmarkName r = normalizeLandmarkName raw)
  /\ (isLandmark r = false ->
      landmarkName r = "Unknown Landmark" /\ rawLandmarkName r = None).

(** The generic fallback as the specification words it. *)
Definition specGenericFallback (labels : list Label) : Prop :=
  (2 <= List.length (landmarkLabels labels))%nat ->
  firstPass landmarkDefinitions labels = None ->
  secondPass landmarkDefinitions labels = None ->
  thirdPass landmarkDefinitions labels = None ->
  keywordTier landmarkDefinitions labels = None ->
  isLandmark (identifyLandmark labels) = true
  /\ matchType (identifyLandmark labels) = Some unknown
  /\ exists b : Label,
       In b labels
       /\ isLandmarkRelatedLabel (Name b) = true
       /\ Str.arrayIncludes genericTerms (Name b) = false
       /\ (forall l, In l labels ->
                     isLandmarkRelatedLabel (Name l) = true ->
                     Str.arrayIncludes genericTerms (Name l) = false ->
                     Confidence l <= Confidence b)
       /\ rawLandmarkName (identifyLandmark labels) = Some (Name b)
       /\ landmarkName (identifyLandmark labels) = normalizeLandmarkName (Name b).

(** ** Predicates about the passes *)

(** A (label, definition) pair the third pass may choose: the label is
    confident enough and the pair similar enough. *)
Definition eligiblePair (defs : list LandmarkDef) (labels : list Label)
    (label : Label) (landmarkDef : LandmarkDef) : Prop :=
  In label labels /\ In landmarkDef defs
  /\ 70 <= Confidence label
  /\ 0.7 <= pairSimilarity label landmarkDef.

(** The six ways out of [identifyLandmark], each with what the code has
    established when it takes it. *)
Inductive Outcome (defs : list LandmarkDef) (labels : list Label)
  : Result -> Prop :=
| OutExact (label : Label) :
    In label labels ->
    In (Name label) (popularDestinations defs) ->
    75 <= Confidence label ->
    Outcome defs labels (exactResult labels label)
| OutAlternative (label : Label) (landmarkDef : LandmarkDef) :
    firstPass defs labels = None ->
    In label labels -> In landmarkDef defs ->
    In (Name label) (alternativeNames landmarkDef) ->
    75 <= Confidence label ->
    Outcome defs labels (alternativeResult labels label landmarkDef)
| OutSimilarity (label : Label) (landmarkDef : LandmarkDef) :
    firstPass defs labels = None ->
    secondPass defs labels = None ->
    eligiblePair defs labels label landmarkDef ->
    Outcome defs labels
            (similarityResult labels
               (mkBest (Some (primaryName landmarkDef))
                       (combinedScore label landmarkDef) (Confidence label)))
| OutKeyword (bestLabel : Label) (landmarkDef : LandmarkDef) (score : Q) :
    firstPass defs labels = None ->
    secondPass defs labels = None ->
    thirdPass defs labels = None ->
    bestLabelOf labels = Some bestLabel ->
    (1 <= List.length (landmarkLabels labels))%nat ->
    In landmarkDef defs ->
    0.3 <= score -> score <= 1 ->
    Outcome defs labels
            (keywordResult labels bestLabel (Some (primaryName landmarkDef), score))
| OutUnknown (bestLabel : Label) :
    firstPass defs labels = None ->
    secondPass defs labels = None ->
    thirdPass defs labels = None ->
    bestLabelOf labels = Some bestLabel ->
    (2 <= List.length (landmarkLabels labels))%nat ->
    85 <= Confidence bestLabel ->
    Outcome defs labels (unknownResult labels bestLabel)
| OutNone :
    firstPass defs labels = None ->
    secondPass defs labels = None ->
    thirdPass defs labels = None ->
    Outcome defs labels (noLandmark labels).

(** ** The table-seeding Lambda *)

(** [rawLandmarkName] and [normalizedLandmarkId] of the seeding handler: the
    name of the one landmark it writes, and the key it writes it under. *)
Definition seededRawLandmarkName : string := "Eiffel Tower".

Definition seededLandmarkId : string :=
  DynamoData.normalizeLandmarkName seededRawLandmarkName.

(** A code unit of a plain name: an ASCII letter (A-Z, a-z), a digit, an
    underscore or whitespace. *)
Definition isPlainChar (c : ascii) : bool := Char.isWord c || Char.isSpace c.

(** ** The earlier versions of the image-processing Lambda *)

(** [labels.some(l => l.Name === name && l.Confidence > threshold)]. *)
Definition someLabelAbove (labels : list Label) (name : string) (threshold : Q)
  : bool :=
  existsb (fun l => String.eqb (Name l) name && Qltb threshold (Confidence l))
          labels.

(** [labels.some(l => l.Name === name && l.Confidence >= threshold)]. *)
Definition someLabelAtLeast (labels : list Label) (name : string) (threshold : Q)
  : bool :=
  existsb (fun l => String.eqb (Name l) name && Qle_bool threshold (Confidence l))
          labels.

(** [b] is the most confident entry of [l], and the last of those that are
    as confident. *)
Definition isLastMostConfident (l : list Label) (b : Label) : Prop :=
  exists pre post : list Label,
    l = pre ++ b :: post
    /\ (forall x, In x pre -> Confidence x <= Confidence b)
    /\ (forall x, In x post -> Confidence x < Confidence b).

(** *** The version that picks a primary label *)

Module PrimaryLabel.

Definition specificLandmarkNames : list string :=
  ["Eiffel Tower"; "Statue Of Liberty"; "Colosseum"].

Definition landmarkKeywords : list string :=
  ["Tower"; "Bridge"; "Castle"; "Pyramid"; "Amphitheater"; "Statue";
   "Temple"; "Opera House"; "Wall"].

(** The callback of the three [reduce] calls:
    [(prev.Confidence > current.Confidence) ? prev : current]. *)
Definition moreConfident (prev current : Label) : Label :=
  if Qltb (Confidence current) (Confidence prev) then prev else current.

(** [arr.reduce(callback)] on an array with first element [first]: no
    initial value, so the first element starts as [prev]. *)
Definition reduceMoreConfident (first : Label) (rest : list Label) : Label :=
  fold_left moreConfident rest first.

Definition isSpecificLandmark (label : Label) : bool :=
  Str.arrayIncludes specificLandmarkNames (Name label)
  && Qltb 90 (Confidence label).

Definition isHighConfidenceLandmark (label : Label) : bool :=
  existsb (fun keyword =>
             Str.includes (Str.toLowerCase (Name label)) (Str.toLowerCase keyword))
          landmarkKeywords
  && Qltb 80 (Confidence label).

(** [null] is [None]. *)
Definition determinePrimaryLandmarkLabel (labels : list Label) : option Label :=
  match filter isSpecificLandmark labels with
  | first :: rest => Some (reduceMoreConfident first rest)
  | [] =>
      match filter isHighConfidenceLandmark labels with
      | first :: rest => Some (reduceMoreConfident first rest)
      | [] =>
          match labels with
          | first :: rest => Some (reduceMoreConfident first rest)
          | [] => None
          end
      end
  end.

(** The decision part of this version's [identifyLandmark]; the object it
    returns has the first four fields of [Result] only. *)
Definition identifyLandmark (labels : list Label) : Result :=
  match determinePrimaryLandmarkLabel labels with
  | Some primaryLandmarkLabel =>
      let rawLandmarkName := Name primaryLandmarkLabel in
      let normalizedLandmarkName := normalizeLandmarkName rawLandmarkName in
      mkResult (negb (String.eqb normalizedLandmarkName "unknownlandmark"))
               normalizedLandmarkName (Some rawLandmarkName) labels
               None None None None
  | None =>
      mkResult false "unknownlandmark" None labels None None None None
  end.

End PrimaryLabel.

(** *** The version with landmark rules *)

Module Rules.

Record LandmarkRule := mkRule {
  name : string;
  indicators : list string;
  confidenceThreshold : Q;
  additionalChecks : option (list Label -> bool)
}.

Definition landmarkRules : list LandmarkRule :=
  [ mkRule "Eiffel Tower" ["Tower"; "Architecture"] 80
      (Some (fun labels => someLabelAbove labels "Paris" 70
                           || someLabelAbove labels "France" 70));
    mkRule "Colosseum" ["Amphitheater"; "Ruins"] 75
      (Some (fun labels => someLabelAbove labels "Rome" 70
                           || someLabelAbove labels "Italy" 70));
    mkRule "Great Pyramid of Giza" ["Pyramid"] 80
      (Some (fun labels => someLabelAbove labels "Egypt" 70
                           || someLabelAbove labels "Giza" 70));
    mkRule "Neuschwanstein Castle" ["Castle"] 80
      (Some (fun labels => someLabelAbove labels "Bavaria" 70
                           || someLabelAbove labels "Germany" 70)) ].

(** The body of the loop over the rules: both tests of one rule. *)
Definition rulePasses (labels : list Label) (rule : LandmarkRule) : bool :=
  let hasSufficientConfidence :=
    forallb (fun indicator =>
               someLabelAtLeast labels indicator (confidenceThreshold rule))
            (indicators rule) in
  let passesAdditionalChecks :=
    match additionalChecks rule with
    | Some check => check labels
    | None => true
    end in
  hasSufficientConfidence && passesAdditionalChecks.

Definition determineLandmarkFromLabels (labels : list Label) : string :=
  match find (fun label => String.eqb (Name label) "Statue of Liberty"
                           && Qle_bool 80 (Confidence label)) labels with
  | Some _ => "Statue of Liberty"
  | None =>
      match firstSome (fun rule => if rulePasses labels rule
                                   then Some (name rule) else None)
                      landmarkRules with
      | Some ruleName => ruleName
      | None => "Unknown Landmark"
      end
  end.

(** The decision part of this version's [identifyLandmark]; the object has
    the fields [isLandmark], [landmarkName] and [detectedLabels]. *)
Definition identifyLandmark (labels : list Label) : Result :=
  let landmarkName := determineLandmarkFromLabels labels in
  mkResult (negb (String.eqb landmarkName "Unknown Landmark")) landmarkName
           None labels None None None None.

End Rules.

(** *** The first version, with an educated guess *)

Module Guess.

Definition landmarkLabels : list string :=
  ["Architecture"; "Building"; "Monument"; "Tower"; "Landmark"; "Castle";
   "Statue"].

(** The two object literals this version returns. *)
Record GuessResult := mkGuess {
  isLandmark : bool;
  landmarkName : option string;
  confidence : option Q;
  message : option string
}.

Definition isLandmarkImage (labels : list Label) : bool :=
  existsb (fun label => Str.arrayIncludes landmarkLabels (Name label)
                        && Qltb 70 (Confidence label))
          labels.

Definition determineLandmarkFromLabels (labels : list Label) : string :=
  if someLabelAbove labels "Tower" 80 then "Eiffel Tower"
  else if someLabelAbove labels "Statue" 80 then "Statue of Liberty"
  else if someLabelAbove labels "Colosseum" 80 then "Colosseum"
  else if someLabelAbove labels "Pyramid" 80 then "Great Pyramid of Giza"
  else if someLabelAbove labels "Castle" 80 then "Neuschwanstein Castle"
  else "Unknown Landmark".

Definition identifyLandmark (labels : list Label) : GuessResult :=
  if negb (isLandmarkImage labels)
  then mkGuess false None None (Some "No landmark detected in the image")
  else mkGuess true (Some (determineLandmarkFromLabels labels)) (Some 85.5) None.

End Guess.

(** Some label named [n] has confidence at least [t], or above [t]. *)
Definition hasLabelAtLeast (labels : list Label) (n : string) (t : Q) : Prop :=
  exists l, In l labels /\ Name l = n /\ t <= Confidence l.

Definition hasLabelAbove (labels : list Label) (n : string) (t : Q) : Prop :=
  exists l, In l labels /\ Name l = n /\ t < Confidence l.

(** ** The pure parts of the handler *)

Module Handler.

(** [a || b] where [a] is a string or [undefined] and [b] a string. *)
Definition orString (a : option string) (b : string) : string :=
  match a with
  | Some s => if Str.isEmpty s then b else s
  | None => b
  end.

(** [a || a] where [a] is a string or [undefined], as the French text has
    it: the empty string and [undefined] stay as they are. *)
Definition orSelf (a : option string) : option string :=
  if truthy a then a else a.

(** A string or [undefined] inside a template literal. *)
Definition interpolate (a : option string) : string :=
  match a with
  | Some s => s
  | None => "undefined"
  end.

(** The object the handler builds when the table has no item for the
    identifier. *)
Record LandmarkInfo := mkInfo {
  LandmarkId : string;
  name : string;
  location : string;
  yearBuilt : string;
  descriptionEn : string;
  descriptionFr : string;
  interestingFactsEn : list string;
  interestingFactsFr : list string
}.

Definition fallbackLandmarkInfo (rekognitionResult : Result) : LandmarkInfo :=
  let normalizedLandmarkId := landmarkName rekognitionResult in
  mkInfo normalizedLandmarkId
         (orString (rawLandmarkName rekognitionResult)
                   (landmarkName rekognitionResult))
         "Unknown" "Unknown"
         ("This appears to be "
          ++ orString (rawLandmarkName rekognitionResult)
                      (landmarkName rekognitionResult)
          ++ ".")
         ("Cela semble " ++ String "234"%char "tre "
          ++ interpolate (orSelf (rawLandmarkName rekognitionResult))
          ++ ".")
         [] [].

(** [matchDetails] of the response: each field of the result, or its
    default when the field is missing or falsy. *)
Record MatchDetails := mkDetails {
  detailsMatchType : string;
  detailsConfidence : Q;
  detailsSimilarityScore : Q
}.

(** [x || 0] where [x] is a number or [undefined]. *)
Definition orZero (x : option Q) : Q :=
  match x with
  | Some q => if Qeq_bool q 0 then 0 else q
  | None => 0
  end.

Definition matchDetails (rekognitionResult : Result) : MatchDetails :=
  mkDetails
    (match matchType rekognitionResult with
     | Some t => matchTypeString t
     | None => "unknown"
     end)
    (orZero (confidence rekognitionResult))
    (orZero (similarityScore rekognitionResult)).

End Handler.

(** ** What lower-casing and whitespace mean, by code unit *)

(** The code units with a lower-case form of their own below 256: A-Z, and
    the Latin-1 capitals 0xC0-0xDE but the multiplication sign 0xD7. *)
Definition isUpperCode (n : N) : Prop :=
  (65 <= n <= 90)%N \/ (192 <= n <= 222 /\ n <> 215)%N.

(** The whitespace code units below 256: tab to carriage return, space and
    no-break space. *)
Definition isSpaceCode (n : N) : Prop :=
  (9 <= n <= 13)%N \/ n = 32%N \/ n = 160%N.

(** What a function on strings must do to lower-case its input and remove
    all its whitespace: it works code unit by code unit, sends a capital to
    the code unit 32 above it, deletes a whitespace code unit and keeps any
    other one. *)
Definition normalizerLaws (f : string -> string) : Prop :=
  (forall a b : string, f (a ++ b)%string = (f a ++ f b)%string)
  /\ forall c : ascii,
       (isUpperCode (N_of_ascii c) ->
        f (String c "") = String (ascii_of_N (N_of_ascii c + 32)) "")
       /\ (isSpaceCode (N_of_ascii c) -> f (String c "") = "")
       /\ (~ isUpperCode (N_of_ascii c) -> ~ isSpaceCode (N_of_ascii c) ->
           f (String c "") = String c "").

(** No code unit of [s] is a capital or whitespace. *)
Definition noCapitalNoSpace (s : string) : Prop :=
  forall c : ascii, In c (list_ascii_of_string s) ->
    ~ isUpperCode (N_of_ascii c) /\ ~ isSpaceCode (N_of_ascii c).

(** * Properties *)

(** ** Characters and strings *)

Lemma char_toLowerCase_idem (c : ascii) :
  Char.toLowerCase (Char.toLowerCase c) = Char.toLowerCase c.
Proof. destruct c as [[] [] [] [] [] [] [] []]; vm_compute; reflexivity. Qed.

Lemma char_isSpace_toLowerCase (c : ascii) :
  Char.isSpace (Char.toLowerCase c) = Char.isSpace c.
Proof. destruct c as [[] [] [] [] [] [] [] []]; vm_compute; reflexivity. Qed.

Lemma toLowerCase_idem (s : string) :
  Str.toLowerCase (Str.toLowerCase s) = Str.toLowerCase s.
Proof.
  induction s as [|c s IH]; simpl; [reflexivity|].
  now rewrite char_toLowerCase_idem, IH.
Qed.

Lemma removeWhitespace_toLowerCase_absorb (s : string) :
  Str.removeWhitespace (Str.toLowerCase (Str.removeWhitespace s))
  = Str.removeWhitespace (Str.toLowerCase s).
Proof.
  induction s as [|c s IH]; simpl; [reflexivity|].
  rewrite char_isSpace_toLowerCase.
  destruct (Char.isSpace c) eqn:Hc; simpl.
  - exact IH.
  - now rewrite char_isSpace_toLowerCase, Hc, IH.
Qed.

Lemma removeWhitespace_trimStart (s : string) :
  Str.removeWhitespace (Str.trimStart s) = Str.removeWhitespace s.
Proof.
  induction s as [|c s IH]; simpl; [reflexivity|].
  destruct (Char.isSpace c) eqn:Hc; [exact IH|].
  simpl. now rewrite Hc.
Qed.

Lemma removeWhitespace_trimEnd (s : string) :
  Str.removeWhitespace (Str.trimEnd s) = Str.removeWhitespace s.
Proof.
  induction s as [|c s IH]; simpl; [reflexivity|].
  destruct (Str.trimEnd s) as [|a t] eqn:Ht.
  - simpl in IH. rewrite <- IH.
    destruct (Char.isSpace c) eqn:Hc; simpl; now rewrite ?Hc.
  - change (Str.removeWhitespace (String c (String a t))
            = Str.removeWhitespace (String c s)).
    cbn [Str.removeWhitespace] in *. now rewrite IH.
Qed.

Lemma removeWhitespace_trim (s : string) :
  Str.removeWhitespace (Str.trim s) = Str.removeWhitespace s.
Proof.
  unfold Str.trim.
  now rewrite removeWhitespace_trimEnd, removeWhitespace_trimStart.
Qed.

(** [normalizeLandmarkName] without the test for the empty string, which
    the general branch handles alike. *)
Lemma normalizeLandmarkName_eq (name : string) :
  normalizeLandmarkName name = Str.removeWhitespace (Str.toLowerCase name).
Proof. destruct name; reflexivity. Qed.

Lemma dynamo_normalizeLandmarkName_eq (name : string) :
  DynamoData.normalizeLandmarkName name
  = Str.removeWhitespace (Str.toLowerCase name).
Proof.
  destruct name as [|c s]; [reflexivity|].
  unfold DynamoData.normalizeLandmarkName.
  cbn [Str.isEmpty Str.toLowerCase]. apply removeWhitespace_trim.
Qed.

Lemma normalized_chars (s : string) :
  Str.all isNormalChar (Str.removeWhitespace (Str.toLowerCase s)) = true.
Proof.
  induction s as [|c s IH]; simpl; [reflexivity|].
  rewrite char_isSpace_toLowerCase.
  destruct (Char.isSpace c) eqn:Hc; [exact IH|].
  simpl. rewrite IH, andb_true_r. unfold isNormalChar.
  rewrite char_isSpace_toLowerCase, Hc, char_toLowerCase_idem.
  simpl. apply Ascii.eqb_refl.
Qed.

Lemma normalizeLandmarkName_idem (x : string) :
  normalizeLandmarkName (normalizeLandmarkName x) = normalizeLandmarkName x.
Proof.
  rewrite !normalizeLandmarkName_eq, removeWhitespace_toLowerCase_absorb.
  now rewrite toLowerCase_idem.
Qed.

(** ** The normalisers *)

Ltac code_of_char :=
  repeat match goal with
         | |- context [N_of_ascii (Ascii ?a ?b ?c ?d ?e ?f ?g ?h)] =>
             let n := eval vm_compute in (N_of_ascii (Ascii a b c d e f g h)) in
             change (N_of_ascii (Ascii a b c d e f g h)) with n
         end.

Lemma removeWhitespace_toLowerCase_app (a b : string) :
  Str.removeWhitespace (Str.toLowerCase (a ++ b))
  = (Str.removeWhitespace (Str.toLowerCase a)
     ++ Str.removeWhitespace (Str.toLowerCase b))%string.
Proof.
  induction a as [|c a IH]; simpl; [reflexivity|].
  destruct (Char.isSpace (Char.toLowerCase c)); simpl; now rewrite IH.
Qed.

Lemma normalizeLandmarkName_laws : normalizerLaws normalizeLandmarkName.
Proof.
  split.
  - intros a b. rewrite !normalizeLandmarkName_eq.
    apply removeWhitespace_toLowerCase_app.
  - intro c. unfold isUpperCode, isSpaceCode.
    destruct c as [[] [] [] [] [] [] [] []]; code_of_char;
      (split; [|split]); intros; try reflexivity; exfalso; lia.
Qed.

Lemma dynamo_normalizeLandmarkName_laws :
  normalizerLaws DynamoData.normalizeLandmarkName.
Proof.
  split.
  - intros a b. rewrite !dynamo_normalizeLandmarkName_eq.
    apply removeWhitespace_toLowerCase_app.
  - intro c. unfold isUpperCode, isSpaceCode.
    destruct c as [[] [] [] [] [] [] [] []]; code_of_char;
      (split; [|split]); intros; try reflexivity; exfalso; lia.
Qed.

Lemma isNormalChar_codes (c : ascii) :
  isNormalChar c = true ->
  ~ isUpperCode (N_of_ascii c) /\ ~ isSpaceCode (N_of_ascii c).
Proof.
  unfold isUpperCode, isSpaceCode.
  destruct c as [[] [] [] [] [] [] [] []]; code_of_char;
    intro H; try (vm_compute in H; discriminate H); split; lia.
Qed.

Lemma all_isNormalChar_codes (s : string) :
  Str.all isNormalChar s = true -> noCapitalNoSpace s.
Proof.
  unfold noCapitalNoSpace.
  induction s as [|a s IH]; simpl; [intros _ c []|].
  intro H. apply andb_true_iff in H as [Ha Hs].
  intros c [<-|Hc]; [now apply isNormalChar_codes | now apply IH].
Qed.

(** C8. [normalizeLandmarkName] is total (a Rocq function), answers the empty
    string for [null], [undefined] and the empty string, is the lower-cased
    input with its whitespace trimmed and removed (the result holds no
    whitespace and no capital), and is idempotent.  Lower-casing and
    whitespace are pinned down by code unit: a capital goes to the code unit
    32 above it, tab to carriage return, space and no-break space are
    deleted, any other code unit is kept, and the function works code unit
    by code unit; so "Eiffel Tower" and "  EIFFEL   TOWER " both give
    "eiffeltower".  All of it holds for both copies of the function. *)
Theorem normalizeLandmarkName_total_idempotent :
  normalizeLandmarkNameOf None = ""
  /\ normalizeLandmarkNameOf (Some "") = ""
  /\ DynamoData.normalizeLandmarkNameOf None = ""
  /\ DynamoData.normalizeLandmarkNameOf (Some "") = ""
  /\ normalizeLandmarkName "Eiffel Tower" = "eiffeltower"
  /\ normalizeLandmarkName "  EIFFEL   TOWER " = "eiffeltower"
  /\ DynamoData.normalizeLandmarkName "Eiffel Tower" = "eiffeltower"
  /\ DynamoData.normalizeLandmarkName "  EIFFEL   TOWER " = "eiffeltower"
  /\ normalizerLaws normalizeLandmarkName
  /\ normalizerLaws DynamoData.normalizeLandmarkName
  /\ forall x : string,
       normalizeLandmarkName x
         = Str.removeWhitespace (Str.trim (Str.toLowerCase x))
       /\ Str.all isNormalChar (normalizeLandmarkName x) = true
       /\ noCapitalNoSpace (normalizeLandmarkName x)
       /\ normalizeLandmarkName (normalizeLandmarkName x)
          = normalizeLandmarkName x
       /\ DynamoData.normalizeLandmarkName x
          = Str.removeWhitespace (Str.trim (Str.toLowerCase x))
       /\ Str.all isNormalChar (DynamoData.normalizeLandmarkName x) = true
       /\ noCapitalNoSpace (DynamoData.normalizeLandmarkName x)
       /\ DynamoData.normalizeLandmarkName (DynamoData.normalizeLandmarkName x)
          = DynamoData.normalizeLandmarkName x.
Proof.
  do 8 (split; [reflexivity|]).
  split; [exact normalizeLandmarkName_laws|].
  split; [exact dynamo_normalizeLandmarkName_laws|].
  intro x.
  split; [now rewrite normalizeLandmarkName_eq, removeWhitespace_trim|].
  split; [rewrite normalizeLandmarkName_eq; apply normalized_chars|].
  split; [apply all_isNormalChar_codes; rewrite normalizeLandmarkName_eq;
          apply normalized_chars|].
  split; [apply normalizeLandmarkName_idem|].
  split; [now rewrite dynamo_normalizeLandmarkName_eq, removeWhitespace_trim|].
  split; [rewrite dynamo_normalizeLandmarkName_eq; apply normalized_chars|].
  split; [apply all_isNormalChar_codes; rewrite dynamo_normalizeLandmarkName_eq;
          apply normalized_chars|].
  rewrite !dynamo_normalizeLandmarkName_eq.
  rewrite <- !normalizeLandmarkName_eq. apply normalizeLandmarkName_idem.
Qed.

(** C10. The two copies of [normalizeLandmarkName], the one that removes
    the whitespace of the lower-cased name and the one that trims it first,
    return the same string on every input, [null] and [undefined]
    included. *)
Theorem normalizeLandmarkName_copies_agree (name : option string) :
  DynamoData.normalizeLandmarkNameOf name = normalizeLandmarkNameOf name.
Proof.
  destruct name as [s|]; [|reflexivity].
  cbn [DynamoData.normalizeLandmarkNameOf normalizeLandmarkNameOf].
  now rewrite dynamo_normalizeLandmarkName_eq, normalizeLandmarkName_eq.
Qed.

(** ** Numbers *)

Lemma Qltb_lt (a b : Q) : Qltb a b = true <-> a < b.
Proof.
  unfold Qltb. rewrite negb_true_iff. split; intro H.
  - apply Qnot_le_lt. intro Hle. apply Qle_bool_iff in Hle. congruence.
  - destruct (Qle_bool b a) eqn:E; [|reflexivity].
    apply Qle_bool_iff in E. exfalso. exact (Qlt_not_le _ _ H E).
Qed.

Lemma Qltb_ge (a b : Q) : Qltb a b = false <-> b <= a.
Proof.
  unfold Qltb. rewrite negb_false_iff. apply Qle_bool_iff.
Qed.

Lemma num_nonneg (n : nat) : 0 <= num n.
Proof.
  unfold num, Qle. simpl. lia.
Qed.

Lemma num_le (m n : nat) : (m <= n)%nat -> num m <= num n.
Proof.
  intro H. unfold num, Qle. simpl. lia.
Qed.

Lemma num_pos (n : nat) : (0 < n)%nat -> 0 < num n.
Proof.
  intro H. unfold num, Qlt. simpl. lia.
Qed.

(** A quotient of counters with the smaller one on top lies in [0, 1]; a
    zero denominator gives zero, as [Qdiv] is total. *)
Lemma ratio_bounds (m n : nat) : (m <= n)%nat -> 0 <= num m / num n <= 1.
Proof.
  intro H. destruct n as [|n].
  - assert (m = 0)%nat as -> by lia. split; vm_compute; discriminate.
  - assert (Hpos : 0 < num (S n)) by (apply num_pos; lia).
    split.
    + apply Qle_shift_div_l; [exact Hpos|].
      rewrite Qmult_0_l. apply num_nonneg.
    + apply Qle_shift_div_r; [exact Hpos|].
      rewrite Qmult_1_l. now apply num_le.
Qed.

(** ** Substrings *)

Lemma prefix_spec (a s : string) :
  String.prefix a s = true <-> exists post, s = (a ++ post)%string.
Proof.
  revert s. induction a as [|c a IH]; intro s.
  - destruct s; simpl; split; intros; eauto.
  - destruct s as [|d s]; simpl.
    + split; [discriminate | intros [post H]; discriminate].
    + destruct (ascii_dec c d) as [->|Hne].
      * rewrite IH. split; intros [post H]; exists post.
        -- now rewrite H.
        -- now inversion H.
      * split; [discriminate|]. intros [post H]. inversion H. congruence.
Qed.

Lemma includes_unfold (s sub : string) :
  Str.includes s sub
  = if String.prefix sub s then true
    else match s with
         | EmptyString => false
         | String _ s' => Str.includes s' sub
         end.
Proof. destruct s; reflexivity. Qed.

Lemma includes_spec (s sub : string) :
  Str.includes s sub = true <-> isSubstring sub s.
Proof.
  split.
  - induction s as [|c s IH]; rewrite includes_unfold;
      destruct (String.prefix sub _) eqn:Hp.
    + intros _. apply prefix_spec in Hp as [post ->]. now exists "", post.
    + discriminate.
    + intros _. apply prefix_spec in Hp as [post ->]. now exists "", post.
    + intro H. destruct (IH H) as (pre & post & ->).
      now exists (String c pre), post.
  - intros (pre & post & ->). induction pre as [|c pre IH].
    + rewrite includes_unfold.
      replace (String.prefix sub ("" ++ sub ++ post)) with true; [reflexivity|].
      symmetry. apply prefix_spec. now exists post.
    + rewrite includes_unfold.
      destruct (String.prefix sub _); [reflexivity|]. exact IH.
Qed.

(** ** The similarity score *)

Lemma not_isSubstring (s sub : string) :
  Str.includes s sub = false -> ~ isSubstring sub s.
Proof.
  intros H Hs. apply includes_spec in Hs. congruence.
Qed.

Lemma includes_false (s sub : string) :
  ~ isSubstring sub s -> Str.includes s sub = false.
Proof.
  intro H. destruct (Str.includes s sub) eqn:E; [|reflexivity].
  exfalso. apply H. now apply includes_spec.
Qed.

Lemma calculateSimilarity_cases (a b : string) : SimilarityCase a b.
Proof.
  unfold calculateSimilarity. cbv zeta.
  destruct (String.eqb (normalizeLandmarkName a) (normalizeLandmarkName b)) eqn:He.
  - apply String.eqb_eq in He.
    apply SimEqual; [exact He|].
    unfold calculateSimilarity. cbv zeta.
    now rewrite (proj2 (String.eqb_eq _ _) He).
  - assert (Hne := proj1 (String.eqb_neq _ _) He).
    destruct (Str.includes (normalizeLandmarkName a) (normalizeLandmarkName b)
              || Str.includes (normalizeLandmarkName b) (normalizeLandmarkName a))
      eqn:Hi.
    + apply SimContainment; [exact Hne | exact Hi|].
      unfold calculateSimilarity. cbv zeta. now rewrite He, Hi.
    + destruct (multiWord (normalizeLandmarkName a) (normalizeLandmarkName b))
        eqn:Hm.
      * destruct (Qltb 0 (overlapScore (normalizeLandmarkName a)
                                       (normalizeLandmarkName b))) eqn:Ho.
        -- apply SimOverlap; [exact Hne | exact Hi | exact Hm | |].
           ++ now apply Qltb_lt.
           ++ unfold calculateSimilarity. cbv zeta. rewrite He, Hi.
              fold (multiWord (normalizeLandmarkName a) (normalizeLandmarkName b)).
              rewrite Hm.
              fold (overlapScore (normalizeLandmarkName a) (normalizeLandmarkName b)).
              now rewrite Ho.
        -- apply SimNone; [exact Hne | exact Hi | |].
           ++ right. intro H. apply Qltb_lt in H. congruence.
           ++ unfold calculateSimilarity. cbv zeta. rewrite He, Hi.
              fold (multiWord (normalizeLandmarkName a) (normalizeLandmarkName b)).
              rewrite Hm.
              fold (overlapScore (normalizeLandmarkName a) (normalizeLandmarkName b)).
              now rewrite Ho.
      * apply SimNone; [exact Hne | exact Hi | now left |].
        unfold calculateSimilarity. cbv zeta. rewrite He, Hi.
        fold (multiWord (normalizeLandmarkName a) (normalizeLandmarkName b)).
        now rewrite Hm.
Qed.

Lemma lengthRatio_bounds (s1 s2 : string) : 0 <= lengthRatio s1 s2 <= 1.
Proof. unfold lengthRatio. apply ratio_bounds. lia. Qed.

Lemma countMatches_le (words1 words2 : list string) :
  (countMatches words1 words2 <= List.length words1)%nat.
Proof.
  induction words1 as [|w ws IH]; simpl; [lia|].
  destruct (String.length w <=? 2)%nat; [lia|].
  destruct (findPartner w words2); lia.
Qed.

Lemma overlapScore_bounds (n1 n2 : string) : 0 <= overlapScore n1 n2 <= 1.
Proof.
  unfold overlapScore. apply ratio_bounds.
  pose proof (countMatches_le (words n1) (words n2)). lia.
Qed.

(** C7. [calculateSimilarity] lies in [0, 1]; it is 1 when the normalised
    strings are equal; and when they differ and one occurs inside the other
    it is the larger of 0.7 and shorter length over longer length. *)
Theorem calculateSimilarity_range_and_containment (a b : string) :
  0 <= calculateSimilarity a b <= 1
  /\ (normalizeLandmarkName a = normalizeLandmarkName b ->
      calculateSimilarity a b == 1)
  /\ (normalizeLandmarkName a <> normalizeLandmarkName b ->
      isSubstring (normalizeLandmarkName b) (normalizeLandmarkName a)
      \/ isSubstring (normalizeLandmarkName a) (normalizeLandmarkName b) ->
      calculateSimilarity a b
      == Qmax 0.7 (num (Nat.min (String.length (normalizeLandmarkName a))
                                (String.length (normalizeLandmarkName b)))
                   / num (Nat.max (String.length (normalizeLandmarkName a))
                                  (String.length (normalizeLandmarkName b))))).
Proof.
  assert (Hsub : isSubstring (normalizeLandmarkName b) (normalizeLandmarkName a)
                 \/ isSubstring (normalizeLandmarkName a) (normalizeLandmarkName b) ->
                 Str.includes (normalizeLandmarkName a) (normalizeLandmarkName b)
                 || Str.includes (normalizeLandmarkName b) (normalizeLandmarkName a)
                 = true).
  { intros [H|H]; apply includes_spec in H; rewrite H;
      [reflexivity | apply orb_true_r]. }
  pose proof (lengthRatio_bounds (normalizeLandmarkName a) (normalizeLandmarkName b))
    as Hr.
  pose proof (overlapScore_bounds (normalizeLandmarkName a) (normalizeLandmarkName b))
    as Ho.
  destruct (calculateSimilarity_cases a b) as [He E | Hne Hi E | Hne Hi Hm Hp E | Hne Hi Hz E];
    rewrite E; (split; [|split]).
  - lra.
  - reflexivity.
  - intros; contradiction.
  - destruct (Q.max_spec 0.7 (lengthRatio (normalizeLandmarkName a)
                                          (normalizeLandmarkName b))) as [[_ ->]|[_ ->]]; lra.
  - intros; contradiction.
  - intros _ _. reflexivity.
  - destruct (Q.min_spec 0.9 (0.5 + overlapScore (normalizeLandmarkName a)
                                                 (normalizeLandmarkName b) * 0.4))
      as [[_ ->]|[_ ->]]; lra.
  - intros; contradiction.
  - intros _ H. apply Hsub in H. congruence.
  - lra.
  - intros; contradiction.
  - intros _ H. apply Hsub in H. congruence.
Qed.

(** The theorem at "Great Wall" against "Great Wall of China": the first
    normalised name is inside the second, nine code units out of sixteen. *)
Lemma calculateSimilarity_range_and_containment_witness :
  calculateSimilarity "Great Wall" "Great Wall of China" == 0.7
  /\ calculateSimilarity "Eiffel Tower" "  EIFFEL   TOWER " == 1.
Proof.
  split.
  - destruct (calculateSimilarity_range_and_containment
                "Great Wall" "Great Wall of China") as (_ & _ & H).
    rewrite H.
    + vm_compute. reflexivity.
    + vm_compute. discriminate.
    + right. exists "", "ofchina". reflexivity.
  - destruct (calculateSimilarity_range_and_containment
                "Eiffel Tower" "  EIFFEL   TOWER ") as (_ & H & _).
    apply H. reflexivity.
Defined.

(** C9. [calculateSimilarity] is 0 or exceeds 0.5: nothing in (0, 0.5] is
    returned. *)
Theorem calculateSimilarity_zero_or_above_half (a b : string) :
  calculateSimilarity a b == 0 \/ 0.5 < calculateSimilarity a b.
Proof.
  pose proof (overlapScore_bounds (normalizeLandmarkName a) (normalizeLandmarkName b))
    as Ho.
  destruct (calculateSimilarity_cases a b) as [He E | Hne Hi E | Hne Hi Hm Hp E | Hne Hi Hz E];
    rewrite E.
  - right. lra.
  - right.
    destruct (Q.max_spec 0.7 (lengthRatio (normalizeLandmarkName a)
                                          (normalizeLandmarkName b))) as [[? ->]|[? ->]]; lra.
  - right.
    destruct (Q.min_spec 0.9 (0.5 + overlapScore (normalizeLandmarkName a)
                                                 (normalizeLandmarkName b) * 0.4))
      as [[? ->]|[? ->]]; lra.
  - left. reflexivity.
Qed.

(** *** The word-overlap step *)

Lemma findPartner_existsb (word1 : string) (words2 : list string) :
  findPartner word1 words2 = existsb (isPartner word1) (longWords words2).
Proof.
  induction words2 as [|w ws IH]; simpl; [reflexivity|].
  rewrite Nat.leb_antisym.
  destruct (2 <? String.length w)%nat; simpl; [|exact IH].
  fold (isPartner word1 w). destruct (isPartner word1 w); simpl; [reflexivity|exact IH].
Qed.

(** Skipping the short tokens inside the two loops counts what dropping
    them beforehand counts. *)
Lemma countMatches_longWords (words1 words2 : list string) :
  countMatches words1 words2
  = List.length (filter (fun w => existsb (isPartner w) (longWords words2))
                        (longWords words1)).
Proof.
  induction words1 as [|w ws IH]; simpl; [reflexivity|].
  rewrite Nat.leb_antisym.
  destruct (2 <? String.length w)%nat; simpl; [|exact IH].
  rewrite findPartner_existsb.
  destruct (existsb (isPartner w) (longWords words2)); simpl; now rewrite IH.
Qed.

(** C5, as the code has it.  For two strings whose normalised forms differ
    and do not contain one another: tokens of at most two code units take no
    part in the matching, but they stay in the denominator, which is the
    larger of the two counts of non-empty tokens; the step runs only when
    one of these two counts exceeds one; and then a positive overlap gives
    min(0.9, 0.5 + overlap * 0.4), anything else gives 0. *)
Theorem calculateSimilarity_word_overlap (a b : string) :
  normalizeLandmarkName a <> normalizeLandmarkName b ->
  ~ isSubstring (normalizeLandmarkName b) (normalizeLandmarkName a) ->
  ~ isSubstring (normalizeLandmarkName a) (normalizeLandmarkName b) ->
  let words1 := words (normalizeLandmarkName a) in
  let words2 := words (normalizeLandmarkName b) in
  let matchCount :=
    List.length (filter (fun w => existsb (isPartner w) (longWords words2))
                        (longWords words1)) in
  let overlap :=
    num matchCount / num (Nat.max (List.length words1) (List.length words2)) in
  ((1 < List.length words1 \/ 1 < List.length words2)%nat ->
   0 < overlap ->
   calculateSimilarity a b == Qmin 0.9 (0.5 + overlap * 0.4))
  /\ (~ (1 < List.length words1 \/ 1 < List.length words2)%nat \/ ~ 0 < overlap ->
      calculateSimilarity a b == 0).
Proof.
  intros Hne H1 H2 words1 words2 matchCount overlap.
  assert (Ho : overlapScore (normalizeLandmarkName a) (normalizeLandmarkName b)
               = overlap).
  { unfold overlapScore, overlap, matchCount, words1, words2.
    now rewrite countMatches_longWords. }
  assert (Hm : multiWord (normalizeLandmarkName a) (normalizeLandmarkName b) = true
               <-> (1 < List.length words1 \/ 1 < List.length words2)%nat).
  { unfold multiWord. rewrite orb_true_iff, !Nat.ltb_lt. reflexivity. }
  apply includes_false in H1. apply includes_false in H2.
  destruct (calculateSimilarity_cases a b) as [He E | _ Hi E | _ _ Hg Hp E | _ _ Hz E];
    rewrite E; clear E.
  - contradiction.
  - rewrite H1, H2 in Hi. discriminate.
  - rewrite Ho in *. split.
    + intros _ _. reflexivity.
    + intros [Hn|Hn]; exfalso; [apply Hn, Hm, Hg | exact (Hn Hp)].
  - rewrite Ho in *. split.
    + intros Hg Hp. exfalso. destruct Hz as [Hz|Hz].
      * apply Hm in Hg. congruence.
      * exact (Hz Hp).
    + intros _. reflexivity.
Qed.

(** The theorem at "Mt. Fuji/San" against "Fuji-san": tokens mt, fuji, san
    against fuji, san; two matches over three tokens. *)
Lemma calculateSimilarity_word_overlap_witness :
  calculateSimilarity "Mt. Fuji/San" "Fuji-san" == 0.5 + (2 # 3) * 0.4.
Proof.
  destruct (calculateSimilarity_word_overlap "Mt. Fuji/San" "Fuji-san")
    as [H _].
  - vm_compute. discriminate.
  - apply not_isSubstring. vm_compute. reflexivity.
  - apply not_isSubstring. vm_compute. reflexivity.
  - rewrite H.
    + vm_compute. reflexivity.
    + left. vm_compute. lia.
    + vm_compute. reflexivity.
Defined.

(** The step as the specification words it fails on the same pair: with the
    short token mt dropped from the denominator the overlap would be 1 and
    the score 0.9. *)
Lemma specWordOverlapStep_fails :
  ~ specWordOverlapStep "Mt. Fuji/San" "Fuji-san".
Proof.
  intro H. unfold specWordOverlapStep in H.
  assert (E : calculateSimilarity "Mt. Fuji/San" "Fuji-san"
              == Qmin 0.9 (0.5 + specOverlap (normalizeLandmarkName "Mt. Fuji/San")
                                             (normalizeLandmarkName "Fuji-san") * 0.4)).
  { apply H.
    - vm_compute. discriminate.
    - apply not_isSubstring. vm_compute. reflexivity.
    - apply not_isSubstring. vm_compute. reflexivity.
    - vm_compute. reflexivity. }
  vm_compute in E. discriminate E.
Qed.

(** ** The cascade *)

Lemma arrayIncludes_In (arr : list string) (x : string) :
  Str.arrayIncludes arr x = true <-> In x arr.
Proof.
  unfold Str.arrayIncludes. rewrite existsb_exists. split.
  - intros (y & Hy & E). apply String.eqb_eq in E. now subst.
  - intro H. exists x. split; [exact H | apply String.eqb_refl].
Qed.

Lemma atLeast_le (threshold : Q) (label : Label) :
  atLeast threshold label = true <-> threshold <= Confidence label.
Proof. apply Qle_bool_iff. Qed.

Lemma firstSome_Some {A B : Type} (f : A -> option B) (l : list A) (y : B) :
  firstSome f l = Some y -> exists x, In x l /\ f x = Some y.
Proof.
  induction l as [|a l IH]; simpl; [discriminate|].
  destruct (f a) eqn:E.
  - intros [= <-]. exists a. auto.
  - intro H. destruct (IH H) as (x & Hx & Hf). exists x. auto.
Qed.

(** The first element on which [f] answers decides, whatever follows it. *)
Lemma firstSome_split {A B : Type} (f : A -> option B) (l : list A) (x : A) :
  In x l -> f x <> None ->
  exists pre first post y,
    l = pre ++ first :: post
    /\ (forall z, In z pre -> f z = None)
    /\ f first = Some y
    /\ firstSome f l = Some y.
Proof.
  induction l as [|a l IH]; simpl; [contradiction|].
  intros Hin Hx. destruct (f a) as [y|] eqn:E.
  - exists [], a, l, y. repeat split; auto. intros z [].
  - destruct Hin as [->|Hin]; [congruence|].
    destruct (IH Hin Hx) as (pre & first & post & y & -> & Hpre & Hf & Hr).
    exists (a :: pre), first, post, y. repeat split; auto.
    intros z [<-|Hz]; auto.
Qed.

(** *** The head of the sorted labels *)

Lemma insertByConfidence_head (x : Label) (l : list Label) :
  hd_error (insertByConfidence x l) = Some x
  \/ (exists y, hd_error l = Some y /\ hd_error (insertByConfidence x l) = Some y
                /\ Confidence x < Confidence y).
Proof.
  destruct l as [|y l]; simpl; [now left|].
  destruct (Qltb (Confidence x) (Confidence y)) eqn:E; simpl.
  - right. exists y. repeat split. now apply Qltb_lt.
  - now left.
Qed.

Lemma sortByConfidenceDesc_head_In (l : list Label) (y : Label) :
  hd_error (sortByConfidenceDesc l) = Some y -> In y l.
Proof.
  revert y. induction l as [|x l IH]; simpl; [discriminate|].
  intros y Hy.
  destruct (insertByConfidence_head x (sortByConfidenceDesc l))
    as [H | (z & Hz & H & _)]; rewrite H in Hy; injection Hy as <-; auto.
Qed.

Lemma sortByConfidenceDesc_head (l : list Label) (b : Label) :
  isFirstMostConfident l b -> hd_error (sortByConfidenceDesc l) = Some b.
Proof.
  intros (pre & post & -> & Hpre & Hpost).
  induction pre as [|a pre IH]; simpl.
  - destruct (sortByConfidenceDesc post) as [|y s] eqn:Es; [reflexivity|].
    simpl.
    assert (Hy : In y post).
    { apply sortByConfidenceDesc_head_In. now rewrite Es. }
    apply Hpost in Hy. apply Qltb_ge in Hy. now rewrite Hy.
  - assert (IH' : hd_error (sortByConfidenceDesc (pre ++ b :: post)) = Some b).
    { apply IH. intros x Hx. apply Hpre. now right. }
    destruct (sortByConfidenceDesc (pre ++ b :: post)) as [|y s];
      [discriminate|].
    simpl in IH'. injection IH' as ->. simpl.
    assert (Ha : Confidence a < Confidence b) by (apply Hpre; now left).
    apply Qltb_lt in Ha. now rewrite Ha.
Qed.

(** *** What each pass returns *)

Lemma firstPass_Some (defs : list LandmarkDef) (labels : list Label) (r : Result) :
  firstPass defs labels = Some r ->
  exists label, In label labels /\ isExactLabel defs label = true
                /\ r = exactResult labels label.
Proof.
  intro H. apply firstSome_Some in H as (label & Hin & Hf).
  exists label. destruct (isExactLabel defs label); [|discriminate].
  injection Hf as <-. auto.
Qed.

Lemma secondPass_Some (defs : list LandmarkDef) (labels : list Label) (r : Result) :
  secondPass defs labels = Some r ->
  exists label landmarkDef,
    In label labels /\ In landmarkDef defs
    /\ r = alternativeResult labels label landmarkDef.
Proof.
  intro H. apply firstSome_Some in H as (label & Hin & Hf).
  apply firstSome_Some in Hf as (landmarkDef & Hd & Hf).
  exists label, landmarkDef.
  destruct (Str.arrayIncludes _ _ && atLeast 75 label); [|discriminate].
  injection Hf as <-. auto.
Qed.

Lemma truthy_Some (s : option string) :
  truthy s = true -> exists raw, s = Some raw.
Proof. destruct s as [raw|]; [eauto | discriminate]. Qed.

Lemma thirdPass_Some (defs : list LandmarkDef) (labels : list Label) (r : Result) :
  thirdPass defs labels = Some r ->
  r = similarityResult labels (thirdLoop defs labels)
  /\ exists raw, bestMatch (thirdLoop defs labels) = Some raw.
Proof.
  unfold thirdPass. cbv zeta.
  destruct (truthy (bestMatch (thirdLoop defs labels))) eqn:E; [|discriminate].
  intros [= <-]. split; [reflexivity | now apply truthy_Some].
Qed.

Lemma fourthPass_Some (defs : list LandmarkDef) (labels : list Label) (r : Result) :
  fourthPass defs labels = Some r ->
  (exists bestLabel st raw,
      fst st = Some raw /\ r = keywordResult labels bestLabel st)
  \/ (exists bestLabel, r = unknownResult labels bestLabel).
Proof.
  unfold fourthPass.
  destruct (0 <? List.length (landmarkLabels labels))%nat; [|discriminate].
  destruct (sortByConfidenceDesc (nonGenericLabels labels)) as [|bestLabel rest];
    [discriminate|].
  cbv zeta.
  destruct (truthy (fst (keywordLoop defs bestLabel))
            && Qle_bool 0.3 (snd (keywordLoop defs bestLabel))) eqn:E.
  - intros [= <-]. left. apply andb_true_iff in E as [E _].
    apply truthy_Some in E as [raw E]. eauto.
  - destruct (atLeast 85 bestLabel
              && (2 <=? List.length (landmarkLabels labels))%nat);
      [|discriminate].
    intros [= <-]. right. eauto.
Qed.

(** The fourth pass is the keyword match, and after it the fallback on the
    same [bestLabel]. *)
Lemma fourthPass_tiers (defs : list LandmarkDef) (labels : list Label) :
  fourthPass defs labels
  = match keywordTier defs labels with
    | Some r => Some r
    | None =>
        match bestLabelOf labels with
        | Some bestLabel =>
            if atLeast 85 bestLabel
               && (2 <=? List.length (landmarkLabels labels))%nat
            then Some (unknownResult labels bestLabel)
            else None
        | None => None
        end
    end.
Proof.
  unfold fourthPass, keywordTier, bestLabelOf.
  destruct (0 <? List.length (landmarkLabels labels))%nat eqn:E0.
  - destruct (sortByConfidenceDesc (nonGenericLabels labels)) as [|b rest];
      simpl; [reflexivity|].
    destruct (truthy (fst (keywordLoop defs b))
              && Qle_bool 0.3 (snd (keywordLoop defs b))); reflexivity.
  - apply Nat.ltb_ge in E0.
    destruct (hd_error _) as [b|]; [|reflexivity].
    replace (2 <=? List.length (landmarkLabels labels))%nat with false.
    + now rewrite andb_false_r.
    + symmetry. apply Nat.leb_gt. lia.
Qed.

Lemma resultInvariant_with (defs : list LandmarkDef) (labels : list Label) :
  resultInvariant (identifyLandmarkWith defs labels).
Proof.
  unfold identifyLandmarkWith.
  destruct (firstPass defs labels) as [r|] eqn:E1.
  { apply firstPass_Some in E1 as (label & _ & _ & ->).
    repeat split; simpl; try discriminate; eauto. }
  destruct (secondPass defs labels) as [r|] eqn:E2.
  { apply secondPass_Some in E2 as (label & landmarkDef & _ & _ & ->).
    repeat split; simpl; try discriminate; eauto. }
  destruct (thirdPass defs labels) as [r|] eqn:E3.
  { apply thirdPass_Some in E3 as (-> & raw & Hraw).
    repeat split; simpl; try discriminate.
    intros _. exists raw. now rewrite Hraw. }
  destruct (fourthPass defs labels) as [r|] eqn:E4.
  { apply fourthPass_Some in E4 as [(b & st & raw & Hraw & ->) | (b & ->)].
    - repeat split; simpl; try discriminate.
      intros _. exists raw. now rewrite Hraw.
    - repeat split; simpl; try discriminate; eauto. }
  repeat split; simpl; try discriminate. intro H. now elim H.
Qed.

(** *** First pass *)

(** C1, as the code has it.  The first pass compares the label's name with
    the primary names as they are written, not after normalisation.  When
    some label carries a primary name at confidence 75 or more, the result
    is an exact match on the first such label of the input, and its
    identifier is that label's normalised name. *)
Theorem exact_primary_name_wins (labels : list Label) (label : Label) :
  In label labels ->
  In (Name label) (popularDestinations landmarkDefinitions) ->
  75 <= Confidence label ->
  exists (pre : list Label) (first : Label) (post : list Label),
    labels = pre ++ first :: post
    /\ (forall l, In l pre ->
          ~ (In (Name l) (popularDestinations landmarkDefinitions)
             /\ 75 <= Confidence l))
    /\ In (Name first) (popularDestinations landmarkDefinitions)
    /\ 75 <= Confidence first
    /\ identifyLandmark labels = exactResult labels first
    /\ matchType (identifyLandmark labels) = Some exact
    /\ landmarkName (identifyLandmark labels) = normalizeLandmarkName (Name first).
Proof.
  intros Hin Hname Hconf.
  set (f := fun l : Label =>
              if isExactLabel landmarkDefinitions l
              then Some (exactResult labels l) else None).
  assert (Hq : forall l, isExactLabel landmarkDefinitions l = true
                         <-> In (Name l) (popularDestinations landmarkDefinitions)
                             /\ 75 <= Confidence l).
  { intro l. unfold isExactLabel.
    now rewrite andb_true_iff, arrayIncludes_In, atLeast_le. }
  assert (Hf : f label <> None).
  { unfold f. rewrite (proj2 (Hq label) (conj Hname Hconf)). discriminate. }
  destruct (firstSome_split f labels label Hin Hf)
    as (pre & first & post & y & Hl & Hpre & Hfirst & Hr).
  unfold f in Hfirst.
  destruct (isExactLabel landmarkDefinitions first) eqn:Ef; [|discriminate].
  injection Hfirst as <-.
  assert (Hid : identifyLandmark labels = exactResult labels first).
  { unfold identifyLandmark, identifyLandmarkWith, firstPass.
    fold f. now rewrite Hr. }
  apply Hq in Ef as [Hn Hc].
  exists pre, first, post. rewrite Hid. repeat split; auto.
  intros l Hl' Hl''. apply Hq in Hl''. specialize (Hpre l Hl').
  unfold f in Hpre. rewrite Hl'' in Hpre. discriminate.
Qed.

(** The theorem on a label set whose second label is "Eiffel Tower". *)
Lemma exact_primary_name_wins_witness :
  matchType (identifyLandmark [mkLabel "Dog" 99; mkLabel "Eiffel Tower" 96])
  = Some exact.
Proof.
  destruct (exact_primary_name_wins
              [mkLabel "Dog" 99; mkLabel "Eiffel Tower" 96]
              (mkLabel "Eiffel Tower" 96))
    as (pre & first & post & _ & _ & _ & _ & _ & H & _).
  - simpl. auto.
  - simpl. auto.
  - vm_compute. discriminate.
  - exact H.
Defined.

(** A label that only normalises to a primary name is not an exact match:
    "eiffel tower" at confidence 80 is matched by similarity. *)
Lemma specExactTier_fails :
  ~ specExactTier [mkLabel "eiffel tower" 80].
Proof.
  intro H.
  destruct (H (mkLabel "eiffel tower" 80)
              (mkDef "Eiffel Tower"
                     ["Tour Eiffel"; "Iron Lady"; "La Tour Eiffel"]
                     ["paris"; "france"; "iron"; "tower"])) as [Hm _].
  - simpl. auto.
  - simpl. auto.
  - reflexivity.
  - vm_compute. discriminate.
  - vm_compute in Hm. discriminate Hm.
Qed.

(** *** Shape of the result *)

(** C2, as the code has it.  A result is a match exactly when it has a
    match type; a match carries the raw name and its normalised form as
    identifier; the no-match result carries the identifier
    "Unknown Landmark" and no raw name. *)
Theorem identifyLandmark_result_invariant (labels : list Label) :
  (isLandmark (identifyLandmark labels) = true
   <-> matchType (identifyLandmark labels) <> None)
  /\ (isLandmark (identifyLandmark labels) = true ->
      exists raw, rawLandmarkName (identifyLandmark labels) = Some raw
                  /\ landmarkName (identifyLandmark labels)
                     = normalizeLandmarkName raw)
  /\ (isLandmark (identifyLandmark labels) = false ->
      landmarkName (identifyLandmark labels) = "Unknown Landmark"
      /\ rawLandmarkName (identifyLandmark labels) = None).
Proof. exact (resultInvariant_with landmarkDefinitions labels). Qed.

(** The theorem on the empty label set, which is not a match. *)
Lemma identifyLandmark_result_invariant_witness :
  landmarkName (identifyLandmark []) = "Unknown Landmark"
  /\ rawLandmarkName (identifyLandmark []) = None.
Proof.
  destruct (identifyLandmark_result_invariant []) as (_ & _ & H).
  apply H. reflexivity.
Defined.

(** The invariant as the specification words it fails on the empty label
    set: the identifier of the no-match result is not the empty string. *)
Lemma specResultInvariant_fails :
  ~ specResultInvariant (identifyLandmark []).
Proof.
  intros (_ & _ & H). destruct H as [H _]; [reflexivity|].
  vm_compute in H. discriminate H.
Qed.

(** *** Fourth pass: the unknown-landmark fallback *)

(** A non-empty list has a first most confident entry. *)
Lemma isFirstMostConfident_exists (l : list Label) :
  l <> [] -> exists b, isFirstMostConfident l b.
Proof.
  induction l as [|x l IH]; [congruence|]. intros _.
  destruct l as [|y l].
  - exists x, [], []. repeat split; intros z [].
  - destruct IH as (b & pre & post & E & Hpre & Hpost); [discriminate|].
    destruct (Qlt_le_dec (Confidence x) (Confidence b)) as [Hlt|Hle].
    + exists b, (x :: pre), post. rewrite E. repeat split; auto.
      intros z [<-|Hz]; auto.
    + exists x, [], (y :: l). repeat split; [intros z []|].
      intros z Hz. rewrite E in Hz. apply in_app_or in Hz as [Hz|[<-|Hz]].
      * apply Qle_trans with (Confidence b); [|exact Hle].
        apply Qlt_le_weak. now apply Hpre.
      * exact Hle.
      * apply Qle_trans with (Confidence b); [|exact Hle]. now apply Hpost.
Qed.

Lemma nonGenericLabels_In (labels : list Label) (x : Label) :
  In x (nonGenericLabels labels)
  <-> In x labels
      /\ Str.arrayIncludes genericTerms (Name x) = false
      /\ 75 <= Confidence x.
Proof.
  unfold nonGenericLabels.
  now rewrite filter_In, andb_true_iff, negb_true_iff, atLeast_le.
Qed.

Lemma isFirstMostConfident_max (l : list Label) (b x : Label) :
  isFirstMostConfident l b -> In x l -> Confidence x <= Confidence b.
Proof.
  intros (pre & post & -> & Hpre & Hpost) Hx.
  apply in_app_or in Hx as [Hx|[<-|Hx]].
  - apply Qlt_le_weak. now apply Hpre.
  - apply Qle_refl.
  - now apply Hpost.
Qed.

Lemma isFirstMostConfident_In (l : list Label) (b : Label) :
  isFirstMostConfident l b -> In b l.
Proof.
  intros (pre & post & -> & _). apply in_or_app. right. now left.
Qed.

Lemma nonGenericLabels_nil (labels : list Label) :
  (forall l, In l labels -> 75 <= Confidence l -> In (Name l) genericTerms) ->
  nonGenericLabels labels = [].
Proof.
  intro H. destruct (nonGenericLabels labels) as [|x rest] eqn:E; [reflexivity|].
  assert (Hx : In x (nonGenericLabels labels)) by (rewrite E; now left).
  apply nonGenericLabels_In in Hx as (Hl & Hg & Hc).
  apply (H x Hl) in Hc. apply arrayIncludes_In in Hc. congruence.
Qed.

(** C4, as the code has it.  Take two or more landmark-related labels at
    confidence 85 or more and no earlier tier firing, and let [b] be the
    most confident label (the first of them on a tie) among the labels at
    confidence 75 or more whose name is not a generic term.  When [b] is
    landmark-related and its confidence is 85 or more, the result is the
    unknown-landmark match on [b], and [b] is the most confident
    landmark-related label with a non-generic name.  When the confidence of
    [b] is below 85, or when there is no such label at all, the result is
    no match. *)
Theorem unknown_landmark_fallback (labels : list Label) :
  (2 <= List.length (landmarkLabels labels))%nat ->
  firstPass landmarkDefinitions labels = None ->
  secondPass landmarkDefinitions labels = None ->
  thirdPass landmarkDefinitions labels = None ->
  keywordTier landmarkDefinitions labels = None ->
  (forall b : Label,
     isFirstMostConfident (nonGenericLabels labels) b ->
     isLandmarkRelatedLabel (Name b) = true ->
     85 <= Confidence b ->
     isLandmark (identifyLandmark labels) = true
     /\ matchType (identifyLandmark labels) = Some unknown
     /\ In b labels
     /\ isLandmarkRelatedLabel (Name b) = true
     /\ Str.arrayIncludes genericTerms (Name b) = false
     /\ (forall l, In l labels ->
                   isLandmarkRelatedLabel (Name l) = true ->
                   Str.arrayIncludes genericTerms (Name l) = false ->
                   Confidence l <= Confidence b)
     /\ rawLandmarkName (identifyLandmark labels) = Some (Name b)
     /\ landmarkName (identifyLandmark labels) = normalizeLandmarkName (Name b))
  /\ (forall b : Label,
        isFirstMostConfident (nonGenericLabels labels) b ->
        Confidence b < 85 ->
        identifyLandmark labels = noLandmark labels)
  /\ ((forall l, In l labels -> 75 <= Confidence l -> In (Name l) genericTerms) ->
      identifyLandmark labels = noLandmark labels).
Proof.
  intros Hlen E1 E2 E3 E4.
  assert (Hid : identifyLandmark labels
                = match bestLabelOf labels with
                  | Some bestLabel =>
                      if atLeast 85 bestLabel
                      then unknownResult labels bestLabel
                      else noLandmark labels
                  | None => noLandmark labels
                  end).
  { unfold identifyLandmark, identifyLandmarkWith.
    rewrite E1, E2, E3, fourthPass_tiers, E4.
    rewrite (proj2 (Nat.leb_le _ _) Hlen).
    destruct (bestLabelOf labels) as [b|]; [|reflexivity].
    rewrite andb_true_r. now destruct (atLeast 85 b). }
  split; [|split].
  - intros b Hb Hrel Hconf.
    destruct (proj1 (nonGenericLabels_In labels b) (isFirstMostConfident_In _ _ Hb))
      as (Hin & Hgen & _).
    rewrite Hid. unfold bestLabelOf. rewrite (sortByConfidenceDesc_head _ _ Hb).
    rewrite (proj2 (atLeast_le 85 b) Hconf).
    simpl. repeat split; auto.
    intros l Hl _ Hlgen.
    destruct (Qlt_le_dec (Confidence l) 75) as [Hlow|Hhigh].
    + apply Qlt_le_weak. apply Qlt_le_trans with 75; [exact Hlow|].
      apply Qle_trans with 85; [|exact Hconf]. vm_compute. discriminate.
    + apply (isFirstMostConfident_max _ _ _ Hb).
      apply nonGenericLabels_In. auto.
  - intros b Hb Hlow. rewrite Hid. unfold bestLabelOf.
    rewrite (sortByConfidenceDesc_head _ _ Hb).
    destruct (atLeast 85 b) eqn:E; [|reflexivity].
    apply atLeast_le in E. exfalso. exact (Qlt_not_le _ _ Hlow E).
  - intro Hall. rewrite Hid. unfold bestLabelOf.
    now rewrite (nonGenericLabels_nil labels Hall).
Qed.

(** The theorem on the scenario of two landmark-related labels that match
    nothing in the catalogue, and on two generic labels. *)
Lemma unknown_landmark_fallback_witness :
  rawLandmarkName
    (identifyLandmark [mkLabel "Ancient Ruins" 90; mkLabel "Historical Site" 88])
  = Some "Ancient Ruins"
  /\ identifyLandmark [mkLabel "Landmark" 90; mkLabel "Monument" 90]
     = noLandmark [mkLabel "Landmark" 90; mkLabel "Monument" 90].
Proof.
  split.
  - destruct (unknown_landmark_fallback
                [mkLabel "Ancient Ruins" 90; mkLabel "Historical Site" 88])
      as (H & _ & _).
    + vm_compute. lia.
    + vm_compute. reflexivity.
    + vm_compute. reflexivity.
    + vm_compute. reflexivity.
    + vm_compute. reflexivity.
    + destruct (H (mkLabel "Ancient Ruins" 90)) as (_ & _ & _ & _ & _ & _ & Hr & _).
      * exists [], [mkLabel "Historical Site" 88]. split; [reflexivity|].
        split; [intros x []|].
        intros x [<-|[]]. vm_compute. discriminate.
      * vm_compute. reflexivity.
      * vm_compute. discriminate.
      * exact Hr.
  - destruct (unknown_landmark_fallback
                [mkLabel "Landmark" 90; mkLabel "Monument" 90])
      as (_ & _ & H).
    + vm_compute. lia.
    + vm_compute. reflexivity.
    + vm_compute. reflexivity.
    + vm_compute. reflexivity.
    + vm_compute. reflexivity.
    + apply H. intros l [<-|[<-|[]]] _; simpl; auto.
Defined.

(** The fallback as the specification words it fails when every
    landmark-related label is a generic term: "Landmark" and "Monument" at
    confidence 90 give no match. *)
Lemma specGenericFallback_fails :
  ~ specGenericFallback [mkLabel "Landmark" 90; mkLabel "Monument" 90].
Proof.
  intro H. destruct H as [H _].
  - vm_compute. lia.
  - vm_compute. reflexivity.
  - vm_compute. reflexivity.
  - vm_compute. reflexivity.
  - vm_compute. reflexivity.
  - vm_compute in H. discriminate H.
Qed.

(** The label the fallback returns need not be landmark-related: a very
    confident "Dog" beside two landmark-related labels is returned. *)
Lemma fallback_returns_unrelated_label :
  let labels := [mkLabel "Ancient Ruins" 90; mkLabel "Historical Site" 88;
                 mkLabel "Dog" 99] in
  rawLandmarkName (identifyLandmark labels) = Some "Dog"
  /\ matchType (identifyLandmark labels) = Some unknown
  /\ isLandmarkRelatedLabel "Dog" = false.
Proof. vm_compute. repeat split. Qed.

(** The fallback does not fire when the best non-generic label is below 85,
    even with two confident landmark-related labels. *)
Lemma fallback_needs_confident_best_label :
  let labels := [mkLabel "Landmark" 90; mkLabel "Monument" 90;
                 mkLabel "Old Tower" 80] in
  (2 <= List.length (landmarkLabels labels))%nat
  /\ isLandmark (identifyLandmark labels) = false.
Proof. vm_compute. split; [lia | reflexivity]. Qed.

(** *** Third pass: what the similarity result reports *)

Lemma fold_left_invariant {A B : Type} (P : A -> Prop) (f : A -> B -> A)
    (l : list B) (init : A) :
  P init ->
  (forall st x, In x l -> P st -> P (f st x)) ->
  P (fold_left f l init).
Proof.
  revert init. induction l as [|x l IH]; intros init Hinit Hstep; simpl.
  - exact Hinit.
  - apply IH.
    + apply Hstep; [now left | exact Hinit].
    + intros st y Hy. apply Hstep. now right.
Qed.

(** Whatever the third loop holds at its end was written for one
    (label, definition) pair: the name is the pair's primary name, the
    confidence the label's, and the score the pair's combined score, that
    is its similarity weighted by the confidence. *)
Lemma thirdLoop_pair (defs : list LandmarkDef) (labels : list Label) :
  bestMatch (thirdLoop defs labels) = None
  \/ exists label landmarkDef,
       In label labels /\ In landmarkDef defs
       /\ 70 <= Confidence label
       /\ 0.7 <= pairSimilarity label landmarkDef
       /\ thirdLoop defs labels
          = mkBest (Some (primaryName landmarkDef))
                   (combinedScore label landmarkDef) (Confidence label).
Proof.
  unfold thirdLoop.
  apply (fold_left_invariant
           (fun best =>
              bestMatch best = None
              \/ exists label landmarkDef,
                   In label labels /\ In landmarkDef defs
                   /\ 70 <= Confidence label
                   /\ 0.7 <= pairSimilarity label landmarkDef
                   /\ best = mkBest (Some (primaryName landmarkDef))
                                    (combinedScore label landmarkDef)
                                    (Confidence label))).
  - now left.
  - intros best label Hlabel Hbest. unfold thirdStepLabel.
    destruct (Qltb (Confidence label) 70) eqn:E70; [exact Hbest|].
    apply Qltb_ge in E70.
    apply fold_left_invariant; [exact Hbest|].
    intros st landmarkDef Hdef Hst. unfold thirdStepDef.
    destruct (Qle_bool 0.7 (pairSimilarity label landmarkDef)
              && Qltb (bestScore st) (combinedScore label landmarkDef)) eqn:E;
      [|exact Hst].
    apply andb_true_iff in E as [E _]. apply Qle_bool_iff in E.
    right. exists label, landmarkDef. auto.
Qed.

(** So the [similarityScore] field of a similarity result is always a
    combined score. *)
Lemma thirdPass_reports_combinedScore
    (defs : list LandmarkDef) (labels : list Label) (r : Result) :
  thirdPass defs labels = Some r ->
  exists label landmarkDef,
    In label labels /\ In landmarkDef defs
    /\ 0.7 <= pairSimilarity label landmarkDef
    /\ rawLandmarkName r = Some (primaryName landmarkDef)
    /\ confidence r = Some (Confidence label)
    /\ similarityScore r = Some (combinedScore label landmarkDef).
Proof.
  intro H. apply thirdPass_Some in H as (-> & raw & Hraw).
  destruct (thirdLoop_pair defs labels)
    as [Hn | (label & landmarkDef & Hl & Hd & _ & Hs & E)]; [congruence|].
  exists label, landmarkDef. unfold similarityResult. rewrite E. simpl.
  repeat split; assumption.
Qed.

(** Only a similarity result has the [similarityScore] field; a keyword
    result has [matchScore] instead. *)
Lemma similarityScore_only_similarity (labels : list Label) :
  similarityScore (identifyLandmark labels) <> None ->
  matchType (identifyLandmark labels) = Some similarity.
Proof.
  unfold identifyLandmark, identifyLandmarkWith.
  destruct (firstPass _ labels) as [r|] eqn:E1.
  { apply firstPass_Some in E1 as (label & _ & _ & ->). simpl. congruence. }
  destruct (secondPass _ labels) as [r|] eqn:E2.
  { apply secondPass_Some in E2 as (label & landmarkDef & _ & _ & ->).
    simpl. congruence. }
  destruct (thirdPass _ labels) as [r|] eqn:E3.
  { apply thirdPass_Some in E3 as (-> & _). reflexivity. }
  destruct (fourthPass _ labels) as [r|] eqn:E4.
  { apply fourthPass_Some in E4 as [(b & st & raw & _ & ->) | (b & ->)];
      simpl; congruence. }
  simpl. congruence.
Qed.

(** C3.  On the single label "eiffel tower" at confidence 80 the result is a
    similarity match on "Eiffel Tower" with the label's confidence; the
    pair's similarity is 1, yet the [similarityScore] field is the
    combined score 0.8. *)
Theorem similarity_result_reports_combined_score :
  let label := mkLabel "eiffel tower" 80 in
  let eiffel := mkDef "Eiffel Tower"
                      ["Tour Eiffel"; "Iron Lady"; "La Tour Eiffel"]
                      ["paris"; "france"; "iron"; "tower"] in
  In eiffel landmarkDefinitions
  /\ matchType (identifyLandmark [label]) = Some similarity
  /\ rawLandmarkName (identifyLandmark [label]) = Some (primaryName eiffel)
  /\ confidence (identifyLandmark [label]) = Some (Confidence label)
  /\ similarityScore (identifyLandmark [label])
     = Some (combinedScore label eiffel)
  /\ pairSimilarity label eiffel == 1
  /\ combinedScore label eiffel == 0.8.
Proof.
  cbv zeta. split; [simpl; auto|].
  repeat split; vm_compute; reflexivity.
Qed.

(** *** Labels with an empty name *)

Lemma includes_empty (s : string) : Str.includes s "" = true.
Proof. destruct s; reflexivity. Qed.

(** An empty normalised name is inside every other name, so the containment
    rule gives it the score 0.7 against any name that does not normalise to
    the empty string. *)
Lemma calculateSimilarity_empty_name (name other : string) :
  normalizeLandmarkName name = "" ->
  normalizeLandmarkName other <> "" ->
  calculateSimilarity name other == 0.7.
Proof.
  intros He Hne.
  destruct (calculateSimilarity_cases name other)
    as [E _ | _ _ E | _ Hi _ _ _ | _ Hi _ _]; rewrite ?He in *.
  - congruence.
  - rewrite E. unfold lengthRatio. simpl.
    destruct (Q.max_spec 0.7 (num 0 / num (String.length (normalizeLandmarkName other))))
      as [[Hlt _]|[_ ->]]; [|reflexivity].
    exfalso. revert Hlt. unfold Qdiv. rewrite Qmult_0_l. vm_compute. discriminate.
  - rewrite includes_empty, orb_true_r in Hi. discriminate.
  - rewrite includes_empty, orb_true_r in Hi. discriminate.
Qed.

(** C6.  A label whose name is empty, or holds whitespace only, at
    confidence 90 is not left unmatched: the similarity pass matches it to
    the first landmark of the catalogue, "Eiffel Tower", with the score
    0.7 * 0.9. *)
Theorem empty_label_name_is_matched :
  calculateSimilarity "" "Eiffel Tower" == 0.7
  /\ isLandmark (identifyLandmark [mkLabel "" 90]) = true
  /\ matchType (identifyLandmark [mkLabel "" 90]) = Some similarity
  /\ rawLandmarkName (identifyLandmark [mkLabel "" 90]) = Some "Eiffel Tower"
  /\ landmarkName (identifyLandmark [mkLabel "" 90]) = "eiffeltower"
  /\ isLandmark (identifyLandmark [mkLabel "   " 90]) = true
  /\ matchType (identifyLandmark [mkLabel "   " 90]) = Some similarity
  /\ rawLandmarkName (identifyLandmark [mkLabel "   " 90]) = Some "Eiffel Tower".
Proof. repeat split; vm_compute; reflexivity. Qed.

(** ** Scenarios *)

Example normalize_eiffel :
  normalizeLandmarkName "Eiffel Tower" = "eiffeltower"
  /\ normalizeLandmarkName "  EIFFEL   TOWER " = "eiffeltower"
  /\ DynamoData.normalizeLandmarkName "  EIFFEL   TOWER " = "eiffeltower".
Proof. repeat split; reflexivity. Qed.

Example split_examples :
  Str.splitNonWord "" = [""]
  /\ Str.splitNonWord "-a" = [""; "a"]
  /\ Str.splitNonWord "a--b_1-" = ["a"; "b_1"; ""]
  /\ words "mt.fuji/san" = ["mt"; "fuji"; "san"].
Proof. repeat split; reflexivity. Qed.

Example scenario_exact :
  identifyLandmark [mkLabel "Eiffel Tower" 96]
  = mkResult true "eiffeltower" (Some "Eiffel Tower")
             [mkLabel "Eiffel Tower" 96] (Some exact) (Some 96) None None.
Proof. vm_compute. reflexivity. Qed.

Example scenario_alternative :
  identifyLandmark [mkLabel "Tour Eiffel" 80]
  = mkResult true "eiffeltower" (Some "Eiffel Tower")
             [mkLabel "Tour Eiffel" 80] (Some alternative) (Some 80) None None.
Proof. vm_compute. reflexivity. Qed.

Example scenario_no_match :
  identifyLandmark [mkLabel "Dog" 99] = noLandmark [mkLabel "Dog" 99]
  /\ identifyLandmark [] = noLandmark [].
Proof. split; vm_compute; reflexivity. Qed.

Example scenario_keyword :
  let r := identifyLandmark [mkLabel "Paris Tower" 90] in
  matchType r = Some keyword
  /\ rawLandmarkName r = Some "Eiffel Tower"
  /\ similarityScore r = None.
Proof. vm_compute. repeat split. Qed.

(** * Further properties of the matching code *)

(** ** The similarity score: what it depends on, and its symmetry *)

(** The score looks at its arguments through [normalizeLandmarkName] only:
    normalising them beforehand changes nothing, so case and whitespace of
    either argument never matter. *)
Theorem calculateSimilarity_normalized_arguments (a b : string) :
  calculateSimilarity (normalizeLandmarkName a) (normalizeLandmarkName b)
  = calculateSimilarity a b.
Proof.
  unfold calculateSimilarity. now rewrite !normalizeLandmarkName_idem.
Qed.

Lemma string_eqb_sym (s t : string) : String.eqb s t = String.eqb t s.
Proof.
  destruct (String.eqb s t) eqn:E.
  - apply String.eqb_eq in E. subst. symmetry. apply String.eqb_refl.
  - apply String.eqb_neq in E. symmetry. apply String.eqb_neq. congruence.
Qed.

Lemma isPartner_sym (x y : string) : isPartner x y = isPartner y x.
Proof.
  unfold isPartner. rewrite (string_eqb_sym x y).
  destruct (String.eqb y x), (Str.includes x y), (Str.includes y x); reflexivity.
Qed.

(** The first two rules are symmetric: when the normalised strings are
    equal, or one occurs inside the other, swapping the arguments gives the
    same score. *)
Theorem calculateSimilarity_symmetric_on_containment (a b : string) :
  normalizeLandmarkName a = normalizeLandmarkName b
  \/ isSubstring (normalizeLandmarkName a) (normalizeLandmarkName b)
  \/ isSubstring (normalizeLandmarkName b) (normalizeLandmarkName a) ->
  calculateSimilarity a b = calculateSimilarity b a.
Proof.
  intro H. unfold calculateSimilarity. cbv zeta.
  rewrite (string_eqb_sym (normalizeLandmarkName b) (normalizeLandmarkName a)).
  destruct (String.eqb (normalizeLandmarkName a) (normalizeLandmarkName b)) eqn:E;
    [reflexivity|].
  apply String.eqb_neq in E.
  assert (Hi : Str.includes (normalizeLandmarkName a) (normalizeLandmarkName b)
               || Str.includes (normalizeLandmarkName b) (normalizeLandmarkName a)
               = true).
  { destruct H as [H|[H|H]]; [contradiction| |];
      apply includes_spec in H; rewrite H;
      [apply orb_true_r | reflexivity]. }
  rewrite (orb_comm (Str.includes (normalizeLandmarkName b) (normalizeLandmarkName a))).
  rewrite Hi.
  now rewrite (Nat.min_comm (String.length (normalizeLandmarkName b))),
              (Nat.max_comm (String.length (normalizeLandmarkName b))).
Qed.

Lemma calculateSimilarity_symmetric_on_containment_witness :
  calculateSimilarity "Great Wall" "Great Wall of China"
  = calculateSimilarity "Great Wall of China" "Great Wall".
Proof.
  apply calculateSimilarity_symmetric_on_containment.
  right. left. exists "", "ofchina". reflexivity.
Defined.

(** The word-overlap rule is not symmetric: the count runs over the tokens
    of the first argument. *)
Lemma calculateSimilarity_not_commutative :
  calculateSimilarity "big-bigger" "big+xyz" == 0.9
  /\ calculateSimilarity "big+xyz" "big-bigger" == 0.7.
Proof. split; vm_compute; reflexivity. Qed.

Lemma num_ratio_pos (m n : nat) :
  0 < num m / num n <-> (0 < m /\ 0 < n)%nat.
Proof.
  split.
  - intro H. destruct m as [|m].
    + exfalso. unfold Qdiv in H. rewrite Qmult_0_l in H.
      exact (Qlt_irrefl _ H).
    + destruct n as [|n]; [|lia].
      exfalso. unfold Qdiv in H.
      change (/ num 0) with 0 in H. rewrite Qmult_0_r in H.
      exact (Qlt_irrefl _ H).
  - intros [Hm Hn]. apply Qlt_shift_div_l.
    + now apply num_pos.
    + rewrite Qmult_0_l. now apply num_pos.
Qed.

Lemma countMatches_pos (words1 words2 : list string) :
  (0 < countMatches words1 words2)%nat
  <-> exists x y, In x (longWords words1) /\ In y (longWords words2)
                  /\ isPartner x y = true.
Proof.
  rewrite countMatches_longWords. split.
  - intro H.
    destruct (filter (fun w => existsb (isPartner w) (longWords words2))
                     (longWords words1)) as [|x rest] eqn:E;
      [simpl in H; lia|].
    assert (Hx : In x (x :: rest)) by now left.
    rewrite <- E in Hx. apply filter_In in Hx as [Hx Hp].
    apply existsb_exists in Hp as (y & Hy & Hp). eauto.
  - intros (x & y & Hx & Hy & Hp).
    assert (Hin : In x (filter (fun w => existsb (isPartner w) (longWords words2))
                               (longWords words1))).
    { apply filter_In. split; [exact Hx|]. apply existsb_exists. eauto. }
    destruct (filter _ _); [contradiction | simpl; lia].
Qed.

Lemma countMatches_pos_sym (words1 words2 : list string) :
  (0 < countMatches words1 words2)%nat -> (0 < countMatches words2 words1)%nat.
Proof.
  intro H. apply countMatches_pos in H as (x & y & Hx & Hy & Hp).
  apply countMatches_pos. exists y, x. now rewrite isPartner_sym.
Qed.

Lemma multiWord_sym (n1 n2 : string) : multiWord n1 n2 = multiWord n2 n1.
Proof. unfold multiWord. apply orb_comm. Qed.

Lemma overlapScore_pos (n1 n2 : string) :
  multiWord n1 n2 = true ->
  (0 < overlapScore n1 n2 <-> (0 < countMatches (words n1) (words n2))%nat).
Proof.
  intro Hm. unfold overlapScore. rewrite num_ratio_pos.
  unfold multiWord in Hm. apply orb_true_iff in Hm.
  rewrite !Nat.ltb_lt in Hm. split; [tauto|]. intro H. split; [exact H | lia].
Qed.

(** When the score does not vanish. *)
Lemma calculateSimilarity_positive (a b : string) :
  ~ calculateSimilarity a b == 0
  <-> normalizeLandmarkName a = normalizeLandmarkName b
      \/ Str.includes (normalizeLandmarkName a) (normalizeLandmarkName b)
         || Str.includes (normalizeLandmarkName b) (normalizeLandmarkName a) = true
      \/ (multiWord (normalizeLandmarkName a) (normalizeLandmarkName b) = true
          /\ (0 < countMatches (words (normalizeLandmarkName a))
                               (words (normalizeLandmarkName b)))%nat).
Proof.
  pose proof (overlapScore_bounds (normalizeLandmarkName a) (normalizeLandmarkName b))
    as Ho.
  destruct (calculateSimilarity_cases a b)
    as [He E | Hne Hi E | Hne Hi Hm Hp E | Hne Hi Hz E]; rewrite E; clear E.
  - split; [auto | intros _ H; vm_compute in H; discriminate].
  - split; [auto|]. intros _ H.
    destruct (Q.max_spec 0.7 (lengthRatio (normalizeLandmarkName a)
                                          (normalizeLandmarkName b)))
      as [[? H']|[? H']]; rewrite H' in H; lra.
  - split.
    + intros _. right. right. split; [exact Hm|]. now apply overlapScore_pos.
    + intros _ H.
      destruct (Q.min_spec 0.9 (0.5 + overlapScore (normalizeLandmarkName a)
                                                   (normalizeLandmarkName b) * 0.4))
        as [[? H']|[? H']]; rewrite H' in H; lra.
  - split.
    + intro H. exfalso. apply H. reflexivity.
    + intros [H|[H|[Hm Hc]]]; [contradiction | congruence |].
      destruct Hz as [Hz|Hz]; [congruence|].
      exfalso. apply Hz. now apply overlapScore_pos.
Qed.

(** Although the score itself depends on the order of the arguments, whether
    it vanishes does not: [calculateSimilarity a b] is 0 exactly when
    [calculateSimilarity b a] is. *)
Theorem calculateSimilarity_zero_symmetric (a b : string) :
  calculateSimilarity a b == 0 <-> calculateSimilarity b a == 0.
Proof.
  assert (H : forall x y, ~ calculateSimilarity x y == 0 ->
                          ~ calculateSimilarity y x == 0).
  { intros x y Hxy. apply calculateSimilarity_positive.
    apply calculateSimilarity_positive in Hxy as [He|[Hi|[Hm Hc]]].
    - left. congruence.
    - right. left. now rewrite orb_comm.
    - right. right. split; [now rewrite multiWord_sym|].
      now apply countMatches_pos_sym. }
  split; intro Hz.
  - destruct (Qeq_dec (calculateSimilarity b a) 0) as [E|E]; [exact E|].
    exfalso. exact (H _ _ E Hz).
  - destruct (Qeq_dec (calculateSimilarity a b) 0) as [E|E]; [exact E|].
    exfalso. exact (H _ _ E Hz).
Qed.

Lemma calculateSimilarity_zero_symmetric_witness :
  calculateSimilarity "Eiffel Tower" "Dog" == 0.
Proof.
  apply (proj1 (calculateSimilarity_zero_symmetric "Dog" "Eiffel Tower")).
  vm_compute. reflexivity.
Defined.

(** ** Landmark-related labels *)

Lemma string_app_assoc (a b c : string) :
  ((a ++ b) ++ c = a ++ (b ++ c))%string.
Proof. induction a as [|x a IH]; simpl; [reflexivity | now rewrite IH]. Qed.

Lemma isSubstring_trans (a b c : string) :
  isSubstring a b -> isSubstring b c -> isSubstring a c.
Proof.
  intros (p1 & q1 & ->) (p2 & q2 & ->).
  exists (p2 ++ p1)%string, (q1 ++ q2)%string.
  now rewrite !string_app_assoc.
Qed.

Lemma isLandmarkRelatedLabel_spec (label : string) :
  isLandmarkRelatedLabel label = true
  <-> exists kw, In kw landmarkKeywords
                 /\ isSubstring kw (normalizeLandmarkName label).
Proof.
  unfold isLandmarkRelatedLabel. cbv zeta. rewrite existsb_exists.
  split; intros (kw & Hk & H); exists kw; split; auto; now apply includes_spec.
Qed.

(** A label is landmark-related as soon as its normalised name contains the
    normalised name of a landmark-related label: what surrounds the keyword,
    and the case and spacing of the label, never matter. *)
Theorem isLandmarkRelatedLabel_monotone (a b : string) :
  isSubstring (normalizeLandmarkName a) (normalizeLandmarkName b) ->
  isLandmarkRelatedLabel a = true ->
  isLandmarkRelatedLabel b = true.
Proof.
  intros Hab Ha. apply isLandmarkRelatedLabel_spec in Ha as (kw & Hk & Hs).
  apply isLandmarkRelatedLabel_spec. exists kw. split; [exact Hk|].
  now apply isSubstring_trans with (normalizeLandmarkName a).
Qed.

Lemma isLandmarkRelatedLabel_monotone_witness :
  isLandmarkRelatedLabel "The  Leaning TOWER of Pisa" = true.
Proof.
  apply (isLandmarkRelatedLabel_monotone "Tower").
  - exists "theleaning", "ofpisa". reflexivity.
  - reflexivity.
Defined.

(** ** The cascade, pass by pass *)

Lemma firstSome_None {A B : Type} (f : A -> option B) (l : list A) :
  firstSome f l = None <-> forall x, In x l -> f x = None.
Proof.
  induction l as [|a l IH]; simpl.
  - split; [intros _ x [] | reflexivity].
  - destruct (f a) eqn:E.
    + split; [discriminate|]. intro H. rewrite <- E. apply H. now left.
    + rewrite IH. split.
      * intros H x [<-|Hx]; auto.
      * intros H x Hx. apply H. now right.
Qed.

Lemma isExactLabel_spec (defs : list LandmarkDef) (label : Label) :
  isExactLabel defs label = true
  <-> In (Name label) (popularDestinations defs) /\ 75 <= Confidence label.
Proof.
  unfold isExactLabel. now rewrite andb_true_iff, arrayIncludes_In, atLeast_le.
Qed.

Lemma firstPass_None (defs : list LandmarkDef) (labels : list Label) :
  firstPass defs labels = None
  <-> forall label, In label labels ->
        ~ (In (Name label) (popularDestinations defs) /\ 75 <= Confidence label).
Proof.
  unfold firstPass. rewrite firstSome_None. split; intros H label Hl.
  - intro Hq. apply isExactLabel_spec in Hq. specialize (H label Hl).
    cbv beta in H. rewrite Hq in H. discriminate.
  - destruct (isExactLabel defs label) eqn:E; [|reflexivity].
    apply isExactLabel_spec in E. exfalso. exact (H label Hl E).
Qed.

Lemma secondPass_Some_full (defs : list LandmarkDef) (labels : list Label)
    (r : Result) :
  secondPass defs labels = Some r ->
  exists label landmarkDef,
    In label labels /\ In landmarkDef defs
    /\ In (Name label) (alternativeNames landmarkDef)
    /\ 75 <= Confidence label
    /\ r = alternativeResult labels label landmarkDef.
Proof.
  intro H. apply firstSome_Some in H as (label & Hin & Hf).
  apply firstSome_Some in Hf as (landmarkDef & Hd & Hf).
  exists label, landmarkDef.
  destruct (Str.arrayIncludes (alternativeNames landmarkDef) (Name label)
            && atLeast 75 label) eqn:E; [|discriminate].
  apply andb_true_iff in E as [Ea Ec].
  apply arrayIncludes_In in Ea. apply atLeast_le in Ec.
  injection Hf as <-. auto.
Qed.

Lemma secondPass_None (defs : list LandmarkDef) (labels : list Label) :
  secondPass defs labels = None
  <-> forall label landmarkDef,
        In label labels -> In landmarkDef defs ->
        ~ (In (Name label) (alternativeNames landmarkDef)
           /\ 75 <= Confidence label).
Proof.
  unfold secondPass. rewrite firstSome_None. split.
  - intros H label landmarkDef Hl Hd [Ha Hc].
    specialize (H label Hl). cbv beta in H.
    apply (proj1 (firstSome_None _ _)) with (x := landmarkDef) in H; [|exact Hd].
    cbv beta in H.
    rewrite (proj2 (arrayIncludes_In _ _) Ha), (proj2 (atLeast_le _ _) Hc) in H.
    discriminate.
  - intros H label Hl. apply firstSome_None. intros landmarkDef Hd.
    destruct (Str.arrayIncludes (alternativeNames landmarkDef) (Name label)
              && atLeast 75 label) eqn:E; [|reflexivity].
    apply andb_true_iff in E as [Ea Ec].
    apply arrayIncludes_In in Ea. apply atLeast_le in Ec.
    exfalso. exact (H label landmarkDef Hl Hd (conj Ea Ec)).
Qed.

Lemma calculateSimilarity_bounds (a b : string) :
  0 <= calculateSimilarity a b <= 1.
Proof.
  pose proof (lengthRatio_bounds (normalizeLandmarkName a) (normalizeLandmarkName b))
    as Hr.
  pose proof (overlapScore_bounds (normalizeLandmarkName a) (normalizeLandmarkName b))
    as Ho.
  destruct (calculateSimilarity_cases a b) as [_ E | _ _ E | _ _ _ _ E | _ _ _ E];
    rewrite E.
  - lra.
  - destruct (Q.max_spec 0.7 (lengthRatio (normalizeLandmarkName a)
                                          (normalizeLandmarkName b)))
      as [[_ ->]|[_ ->]]; lra.
  - destruct (Q.min_spec 0.9 (0.5 + overlapScore (normalizeLandmarkName a)
                                                 (normalizeLandmarkName b) * 0.4))
      as [[_ ->]|[_ ->]]; lra.
  - lra.
Qed.

(** The score of a pair is the largest of the scores against the primary
    name and the alternative names. *)
Lemma pairSimilarity_fold (name : string) (alts : list string) (init : Q) :
  let best := fold_left (fun similarityScore altName =>
                 let altSimilarityScore := calculateSimilarity name altName in
                 if Qltb similarityScore altSimilarityScore
                 then altSimilarityScore else similarityScore)
                alts init in
  init <= best
  /\ (forall alt, In alt alts -> calculateSimilarity name alt <= best)
  /\ (0 <= init <= 1 -> 0 <= best <= 1).
Proof.
  revert init. induction alts as [|alt alts IH]; intro init; simpl.
  - split; [apply Qle_refl | split; [intros alt [] | tauto]].
  - cbv zeta in IH.
    destruct (Qltb init (calculateSimilarity name alt)) eqn:E.
    + apply Qltb_lt in E.
      destruct (IH (calculateSimilarity name alt)) as (H1 & H2 & H3).
      split; [|split].
      * apply Qle_trans with (calculateSimilarity name alt); [|exact H1].
        now apply Qlt_le_weak.
      * intros a [<-|Ha]; auto.
      * intros _. apply H3. apply calculateSimilarity_bounds.
    + apply Qltb_ge in E. destruct (IH init) as (H1 & H2 & H3).
      split; [|split]; auto.
      intros a [<-|Ha]; auto. now apply Qle_trans with init.
Qed.

Lemma pairSimilarity_bounds (label : Label) (landmarkDef : LandmarkDef) :
  0 <= pairSimilarity label landmarkDef <= 1.
Proof.
  unfold pairSimilarity.
  destruct (pairSimilarity_fold (Name label) (alternativeNames landmarkDef)
              (calculateSimilarity (Name label) (primaryName landmarkDef)))
    as (_ & _ & H).
  apply H. apply calculateSimilarity_bounds.
Qed.

Lemma pairSimilarity_ge_primary (label : Label) (landmarkDef : LandmarkDef) :
  calculateSimilarity (Name label) (primaryName landmarkDef)
  <= pairSimilarity label landmarkDef.
Proof.
  unfold pairSimilarity.
  destruct (pairSimilarity_fold (Name label) (alternativeNames landmarkDef)
              (calculateSimilarity (Name label) (primaryName landmarkDef)))
    as (H & _ & _).
  exact H.
Qed.

Lemma pairSimilarity_ge_alternative (label : Label) (landmarkDef : LandmarkDef)
    (alt : string) :
  In alt (alternativeNames landmarkDef) ->
  calculateSimilarity (Name label) alt <= pairSimilarity label landmarkDef.
Proof.
  unfold pairSimilarity.
  destruct (pairSimilarity_fold (Name label) (alternativeNames landmarkDef)
              (calculateSimilarity (Name label) (primaryName landmarkDef)))
    as (_ & H & _).
  apply H.
Qed.

(** *** The third loop keeps a maximum *)

Lemma thirdStepDef_grows (label : Label) (best : Best) (landmarkDef : LandmarkDef) :
  bestScore best <= bestScore (thirdStepDef label best landmarkDef).
Proof.
  unfold thirdStepDef.
  destruct (Qle_bool 0.7 (pairSimilarity label landmarkDef)
            && Qltb (bestScore best) (combinedScore label landmarkDef)) eqn:E;
    [|apply Qle_refl].
  apply andb_true_iff in E as [_ E]. apply Qltb_lt in E.
  simpl. now apply Qlt_le_weak.
Qed.

Lemma thirdStepDef_reaches (label : Label) (best : Best) (landmarkDef : LandmarkDef) :
  0.7 <= pairSimilarity label landmarkDef ->
  combinedScore label landmarkDef
  <= bestScore (thirdStepDef label best landmarkDef).
Proof.
  intro Hs. unfold thirdStepDef.
  rewrite (proj2 (Qle_bool_iff _ _) Hs). simpl.
  destruct (Qltb (bestScore best) (combinedScore label landmarkDef)) eqn:E.
  - apply Qle_refl.
  - now apply Qltb_ge in E.
Qed.

(** A fold whose steps never lower a measure ends above every value that
    some step reaches. *)
Lemma fold_left_max {A B : Type} (m : A -> Q) (v : B -> Q) (P : B -> Prop)
    (f : A -> B -> A) (l : list B) (init : A) :
  (forall st x, m st <= m (f st x)) ->
  (forall st x, P x -> v x <= m (f st x)) ->
  m init <= m (fold_left f l init)
  /\ forall x, In x l -> P x -> v x <= m (fold_left f l init).
Proof.
  intros Hgrow Hreach. revert init.
  induction l as [|y l IH]; intro init; simpl.
  - split; [apply Qle_refl | intros x []].
  - destruct (IH (f init y)) as [H1 H2]. split.
    + apply Qle_trans with (m (f init y)); [apply Hgrow | exact H1].
    + intros x [E|Hx] Hp; [subst x | now apply H2].
      apply Qle_trans with (m (f init y)); [now apply Hreach | exact H1].
Qed.

Lemma thirdStepLabel_grows (defs : list LandmarkDef) (best : Best) (label : Label) :
  bestScore best <= bestScore (thirdStepLabel defs best label).
Proof.
  unfold thirdStepLabel.
  destruct (Qltb (Confidence label) 70); [apply Qle_refl|].
  apply (fold_left_max bestScore (fun _ => 0) (fun _ => False)
                       (thirdStepDef label) defs best).
  - intros st x. apply thirdStepDef_grows.
  - intros st x [].
Qed.

Lemma thirdLoop_max (defs : list LandmarkDef) (labels : list Label)
    (label : Label) (landmarkDef : LandmarkDef) :
  eligiblePair defs labels label landmarkDef ->
  combinedScore label landmarkDef <= bestScore (thirdLoop defs labels).
Proof.
  intros (Hl & Hd & Hc & Hs). unfold thirdLoop.
  apply (fold_left_max bestScore
           (fun l => combinedScore l landmarkDef)
           (fun l => 70 <= Confidence l /\ 0.7 <= pairSimilarity l landmarkDef)
           (thirdStepLabel defs) labels (mkBest None 0 0)); auto.
  - intros st x. apply thirdStepLabel_grows.
  - intros st x [Hxc Hxs]. unfold thirdStepLabel.
    rewrite (proj2 (Qltb_ge _ _) Hxc).
    apply (fold_left_max bestScore
             (fun d => combinedScore x d)
             (fun d => 0.7 <= pairSimilarity x d)
             (thirdStepDef x) defs st); auto.
    + intros st' d. apply thirdStepDef_grows.
    + intros st' d Hd'. now apply thirdStepDef_reaches.
Qed.

Lemma thirdLoop_none (defs : list LandmarkDef) (labels : list Label) :
  bestMatch (thirdLoop defs labels) = None ->
  thirdLoop defs labels = mkBest None 0 0.
Proof.
  unfold thirdLoop.
  apply (fold_left_invariant
           (fun best => bestMatch best = None -> best = mkBest None 0 0)).
  - reflexivity.
  - intros best label _ Hbest. unfold thirdStepLabel.
    destruct (Qltb (Confidence label) 70); [exact Hbest|].
    apply fold_left_invariant; [exact Hbest|].
    intros st landmarkDef _ Hst. unfold thirdStepDef.
    destruct (Qle_bool 0.7 (pairSimilarity label landmarkDef)
              && Qltb (bestScore st) (combinedScore label landmarkDef));
      [discriminate | exact Hst].
Qed.

Lemma eligiblePair_positive (defs : list LandmarkDef) (labels : list Label)
    (label : Label) (landmarkDef : LandmarkDef) :
  eligiblePair defs labels label landmarkDef ->
  0 < combinedScore label landmarkDef.
Proof.
  intros (_ & _ & Hc & Hs). unfold combinedScore.
  apply Qmult_lt_0_compat; [lra|].
  apply Qlt_shift_div_l; lra.
Qed.

(** The third loop ends with a landmark exactly when some pair is eligible. *)
Lemma thirdLoop_fires (defs : list LandmarkDef) (labels : list Label) :
  bestMatch (thirdLoop defs labels) <> None
  <-> exists label landmarkDef, eligiblePair defs labels label landmarkDef.
Proof.
  split.
  - intro H. destruct (thirdLoop_pair defs labels)
      as [Hn | (label & landmarkDef & Hl & Hd & Hc & Hs & _)]; [contradiction|].
    exists label, landmarkDef. repeat split; assumption.
  - intros (label & landmarkDef & He) Hn.
    pose proof (thirdLoop_max _ _ _ _ He) as Hmax.
    pose proof (eligiblePair_positive _ _ _ _ He) as Hpos.
    rewrite (thirdLoop_none _ _ Hn) in Hmax. simpl in Hmax. lra.
Qed.

(** *** The keyword loop *)

Lemma keywordLoop_invariant (defs : list LandmarkDef) (bestLabel : Label) :
  (fst (keywordLoop defs bestLabel) = None
   \/ exists landmarkDef, In landmarkDef defs
        /\ fst (keywordLoop defs bestLabel) = Some (primaryName landmarkDef))
  /\ 0 <= snd (keywordLoop defs bestLabel) <= 1.
Proof.
  unfold keywordLoop.
  apply (fold_left_invariant
           (fun st => (fst st = None
                       \/ exists landmarkDef, In landmarkDef defs
                            /\ fst st = Some (primaryName landmarkDef))
                      /\ 0 <= snd st <= 1)).
  - simpl. split; [now left | lra].
  - intros st landmarkDef Hd [Hname Hscore]. unfold keywordStep. cbv zeta.
    set (st1 := if Qltb (snd st)
                     (calculateSimilarity (Name bestLabel) (primaryName landmarkDef))
                then (Some (primaryName landmarkDef),
                      calculateSimilarity (Name bestLabel) (primaryName landmarkDef))
                else st).
    assert (H1 : (fst st1 = None
                  \/ exists d, In d defs /\ fst st1 = Some (primaryName d))
                 /\ 0 <= snd st1 <= 1).
    { unfold st1. destruct (Qltb _ _); [|split; assumption].
      simpl. split; [right; eauto | apply calculateSimilarity_bounds]. }
    destruct ((0 <? List.length (keywordMatches bestLabel landmarkDef))%nat
              && Qltb (snd st1)
                   (num (List.length (keywordMatches bestLabel landmarkDef))
                    / num (List.length (keywords landmarkDef)))); [|exact H1].
    simpl. split; [right; eauto|].
    apply ratio_bounds. unfold keywordMatches. apply filter_length_le.
Qed.

(** *** Every call ends in one of the six outcomes *)

Lemma identifyLandmarkWith_outcome (defs : list LandmarkDef) (labels : list Label) :
  Outcome defs labels (identifyLandmarkWith defs labels).
Proof.
  unfold identifyLandmarkWith.
  destruct (firstPass defs labels) as [r|] eqn:E1.
  { apply firstPass_Some in E1 as (label & Hl & Hq & ->).
    apply isExactLabel_spec in Hq as [Hn Hc]. now apply OutExact. }
  destruct (secondPass defs labels) as [r|] eqn:E2.
  { apply secondPass_Some_full in E2 as (label & d & Hl & Hd & Ha & Hc & ->).
    now apply OutAlternative. }
  destruct (thirdPass defs labels) as [r|] eqn:E3.
  { apply thirdPass_Some in E3 as (-> & raw & Hraw).
    destruct (thirdLoop_pair defs labels)
      as [Hn | (label & d & Hl & Hd & Hc & Hs & E)]; [congruence|].
    rewrite E. apply OutSimilarity; auto. repeat split; assumption. }
  destruct (fourthPass defs labels) as [r|] eqn:E4; [|now apply OutNone].
  unfold fourthPass in E4.
  destruct (0 <? List.length (landmarkLabels labels))%nat eqn:E0; [|discriminate].
  apply Nat.ltb_lt in E0.
  destruct (sortByConfidenceDesc (nonGenericLabels labels)) as [|b rest] eqn:Es;
    [discriminate|].
  assert (Hb : bestLabelOf labels = Some b).
  { unfold bestLabelOf. now rewrite Es. }
  cbv zeta in E4.
  destruct (keywordLoop_invariant defs b) as [Hname [Hlo Hhi]].
  destruct (keywordLoop defs b) as [name score] eqn:Ek.
  cbn [fst snd] in *.
  destruct (truthy name && Qle_bool 0.3 score) eqn:Et.
  - injection E4 as <-. apply andb_true_iff in Et as [Et Eq].
    apply Qle_bool_iff in Eq.
    destruct Hname as [->|(d & Hd & ->)]; [discriminate|].
    apply OutKeyword; auto.
  - destruct (atLeast 85 b && (2 <=? List.length (landmarkLabels labels))%nat)
      eqn:Eu; [|discriminate].
    injection E4 as <-. apply andb_true_iff in Eu as [Ec El].
    apply atLeast_le in Ec. apply Nat.leb_le in El.
    now apply OutUnknown.
Qed.

Lemma identifyLandmark_outcome (labels : list Label) :
  Outcome landmarkDefinitions labels (identifyLandmark labels).
Proof. apply identifyLandmarkWith_outcome. Qed.

Lemma bestLabelOf_nonGeneric (labels : list Label) (b : Label) :
  bestLabelOf labels = Some b ->
  In b labels
  /\ Str.arrayIncludes genericTerms (Name b) = false
  /\ 75 <= Confidence b.
Proof.
  intro H. apply sortByConfidenceDesc_head_In in H.
  now apply nonGenericLabels_In.
Qed.

Lemma landmarkLabels_In (labels : list Label) (x : Label) :
  In x (landmarkLabels labels)
  <-> In x labels /\ isLandmarkRelatedLabel (Name x) = true
      /\ 85 <= Confidence x.
Proof.
  unfold landmarkLabels.
  now rewrite filter_In, andb_true_iff, atLeast_le.
Qed.

(** ** What a result guarantees *)

Lemma primaryNames_normalize_nonEmpty (landmarkDef : LandmarkDef) :
  In landmarkDef landmarkDefinitions ->
  primaryName landmarkDef <> ""
  /\ normalizeLandmarkName (primaryName landmarkDef) <> "".
Proof.
  intro H.
  assert (E : forallb (fun d => negb (Str.isEmpty (primaryName d))
                                && negb (Str.isEmpty
                                           (normalizeLandmarkName (primaryName d))))
                      landmarkDefinitions = true) by (vm_compute; reflexivity).
  rewrite forallb_forall in E. specialize (E _ H).
  apply andb_true_iff in E as [E1 E2].
  split; intro Hz; rewrite Hz in *; discriminate.
Qed.

Lemma thirdPass_None_no_eligible (labels : list Label)
    (label : Label) (landmarkDef : LandmarkDef) :
  thirdPass landmarkDefinitions labels = None ->
  ~ eligiblePair landmarkDefinitions labels label landmarkDef.
Proof.
  unfold thirdPass. cbv zeta. intros H He.
  assert (Hf : bestMatch (thirdLoop landmarkDefinitions labels) <> None).
  { apply thirdLoop_fires. eauto. }
  destruct (thirdLoop_pair landmarkDefinitions labels)
    as [Hn | (l & d & _ & Hd & _ & _ & E)]; [contradiction|].
  rewrite E in H. simpl in H.
  destruct (primaryNames_normalize_nonEmpty d Hd) as [Hne _].
  destruct (primaryName d); [congruence | discriminate].
Qed.

(** Every match rests on a label of the input whose confidence is the one
    reported, and that confidence is at least 70. *)
Theorem match_confidence_from_label (labels : list Label) :
  isLandmark (identifyLandmark labels) = true ->
  exists label,
    In label labels
    /\ confidence (identifyLandmark labels) = Some (Confidence label)
    /\ 70 <= Confidence label.
Proof.
  pose proof (identifyLandmark_outcome labels) as H.
  destruct H as [label Hl _ Hc | label d _ Hl _ _ Hc | label d _ _ (Hl & _ & Hc & _)
                 | b d score _ _ _ Hb _ _ _ _ | b _ _ _ Hb _ Hc | _ _ _]; simpl.
  - intros _. exists label. repeat split; auto. lra.
  - intros _. exists label. repeat split; auto. lra.
  - intros _. exists label. repeat split; auto.
  - intros _. apply bestLabelOf_nonGeneric in Hb as (Hl & _ & Hc).
    exists b. repeat split; auto. lra.
  - intros _. apply bestLabelOf_nonGeneric in Hb as (Hl & _ & _).
    exists b. repeat split; auto. lra.
  - discriminate.
Qed.

Lemma match_confidence_from_label_witness :
  exists label,
    In label [mkLabel "Dog" 99; mkLabel "Tour Eiffel" 80]
    /\ confidence (identifyLandmark [mkLabel "Dog" 99; mkLabel "Tour Eiffel" 80])
       = Some (Confidence label)
    /\ 70 <= Confidence label.
Proof.
  apply match_confidence_from_label. vm_compute. reflexivity.
Defined.

(** A label set whose confidences are all below 70 is never matched,
    whatever the names are. *)
Theorem low_confidence_never_matches (labels : list Label) :
  (forall label, In label labels -> Confidence label < 70) ->
  identifyLandmark labels = noLandmark labels.
Proof.
  intro Hlow.
  assert (Hno : forall label, In label labels -> 70 <= Confidence label -> False).
  { intros label Hl Hc. specialize (Hlow label Hl). lra. }
  pose proof (identifyLandmark_outcome labels) as H.
  destruct H as [label Hl _ Hc | label d _ Hl _ _ Hc | label d _ _ (Hl & _ & Hc & _)
                 | b d score _ _ _ Hb _ _ _ _ | b _ _ _ Hb _ Hc | _ _ _].
  - exfalso. apply (Hno label Hl). lra.
  - exfalso. apply (Hno label Hl). lra.
  - exfalso. apply (Hno label Hl). lra.
  - exfalso. apply bestLabelOf_nonGeneric in Hb as (Hl & _ & Hc).
    apply (Hno b Hl). lra.
  - exfalso. apply bestLabelOf_nonGeneric in Hb as (Hl & _ & _).
    apply (Hno b Hl). lra.
  - reflexivity.
Qed.

Lemma low_confidence_never_matches_witness :
  identifyLandmark [mkLabel "Eiffel Tower" 69; mkLabel "Tower" 60]
  = noLandmark [mkLabel "Eiffel Tower" 69; mkLabel "Tower" 60].
Proof.
  apply low_confidence_never_matches.
  intros label [<-|[<-|[]]]; vm_compute; reflexivity.
Defined.

(** *** Second pass *)

(** When no label is an exact match, a label that carries, as written, an
    alternative name of a catalogued landmark at confidence 75 or more makes
    the result an alternative-name match: it names the primary name of a
    landmark one of whose alternative names such a label carries, and the
    identifier is that primary name normalised. *)
Theorem alternative_name_wins (labels : list Label) (label : Label)
    (landmarkDef : LandmarkDef) :
  firstPass landmarkDefinitions labels = None ->
  In label labels -> In landmarkDef landmarkDefinitions ->
  In (Name label) (alternativeNames landmarkDef) ->
  75 <= Confidence label ->
  exists label' landmarkDef',
    In label' labels /\ In landmarkDef' landmarkDefinitions
    /\ In (Name label') (alternativeNames landmarkDef')
    /\ 75 <= Confidence label'
    /\ identifyLandmark labels = alternativeResult labels label' landmarkDef'
    /\ matchType (identifyLandmark labels) = Some alternative
    /\ rawLandmarkName (identifyLandmark labels) = Some (primaryName landmarkDef')
    /\ landmarkName (identifyLandmark labels)
       = normalizeLandmarkName (primaryName landmarkDef').
Proof.
  intros E1 Hl Hd Ha Hc.
  destruct (secondPass landmarkDefinitions labels) as [r|] eqn:E2.
  - apply secondPass_Some_full in E2 as H.
    destruct H as (label' & d' & Hl' & Hd' & Ha' & Hc' & ->).
    assert (Hid : identifyLandmark labels = alternativeResult labels label' d').
    { unfold identifyLandmark, identifyLandmarkWith. now rewrite E1, E2. }
    exists label', d'. rewrite Hid. repeat split; auto.
  - exfalso.
    apply (proj1 (secondPass_None _ _) E2 label landmarkDef Hl Hd). auto.
Qed.

Lemma alternative_name_wins_witness :
  matchType (identifyLandmark [mkLabel "Sky" 97; mkLabel "Lady Liberty" 81])
  = Some alternative.
Proof.
  destruct (alternative_name_wins
              [mkLabel "Sky" 97; mkLabel "Lady Liberty" 81]
              (mkLabel "Lady Liberty" 81)
              (mkDef "Statue of Liberty"
                     ["Liberty Enlightening the World"; "Lady Liberty"]
                     ["new york"; "liberty island"; "usa"; "america"]))
    as (l & d & _ & _ & _ & _ & _ & H & _).
  - vm_compute. reflexivity.
  - simpl. auto.
  - simpl. auto.
  - simpl. auto.
  - vm_compute. discriminate.
  - exact H.
Defined.

(** *** Third pass *)

(** When the first two passes find nothing, the result is a similarity match
    exactly when some pair is eligible (a label at confidence 70 or more
    whose similarity to a landmark, over its primary and alternative names,
    is 0.7 or more); the match then names the landmark of an eligible pair,
    with that pair's label confidence. *)
Theorem similarity_pass_fires_on_eligible_pair (labels : list Label) :
  firstPass landmarkDefinitions labels = None ->
  secondPass landmarkDefinitions labels = None ->
  (matchType (identifyLandmark labels) = Some similarity
   <-> exists label landmarkDef,
         eligiblePair landmarkDefinitions labels label landmarkDef)
  /\ (matchType (identifyLandmark labels) = Some similarity ->
      exists label landmarkDef,
        eligiblePair landmarkDefinitions labels label landmarkDef
        /\ rawLandmarkName (identifyLandmark labels)
           = Some (primaryName landmarkDef)
        /\ landmarkName (identifyLandmark labels)
           = normalizeLandmarkName (primaryName landmarkDef)
        /\ confidence (identifyLandmark labels) = Some (Confidence label)).
Proof.
  intros E1 E2.
  assert (Hfwd : matchType (identifyLandmark labels) = Some similarity ->
                 exists label landmarkDef,
                   eligiblePair landmarkDefinitions labels label landmarkDef
                   /\ rawLandmarkName (identifyLandmark labels)
                      = Some (primaryName landmarkDef)
                   /\ landmarkName (identifyLandmark labels)
                      = normalizeLandmarkName (primaryName landmarkDef)
                   /\ confidence (identifyLandmark labels)
                      = Some (Confidence label)).
  { pose proof (identifyLandmark_outcome labels) as H.
    destruct H as [label _ _ _ | label d _ _ _ _ _ | label d _ _ He
                   | b d score _ _ _ _ _ _ _ _ | b _ _ _ _ _ _ | _ _ _];
      simpl; try discriminate.
    intros _. exists label, d. auto. }
  split; [|exact Hfwd]. split.
  - intro H. destruct (Hfwd H) as (label & d & He & _). eauto.
  - intros (label & d & He).
    destruct (thirdPass landmarkDefinitions labels) as [r|] eqn:E3.
    + apply thirdPass_Some in E3 as H. destruct H as (-> & _).
      unfold identifyLandmark, identifyLandmarkWith. now rewrite E1, E2, E3.
    + exfalso. exact (thirdPass_None_no_eligible _ _ _ E3 He).
Qed.

Lemma similarity_pass_fires_on_eligible_pair_witness :
  matchType
    (identifyLandmark [mkLabel "great wall china" 74; mkLabel "The Colosseum" 90])
  = Some similarity.
Proof.
  destruct (similarity_pass_fires_on_eligible_pair
              [mkLabel "great wall china" 74; mkLabel "The Colosseum" 90])
    as [[_ H] _].
  - vm_compute. reflexivity.
  - vm_compute. reflexivity.
  - apply H.
    exists (mkLabel "The Colosseum" 90),
           (mkDef "Colosseum"
                  ["Coliseum"; "Flavian Amphitheatre"; "Roman Colosseum"]
                  ["rome"; "italy"; "arena"; "amphitheater"; "gladiator"]).
    split; [simpl; auto|]. split; [simpl; auto|].
    split; vm_compute; discriminate.
Defined.

(** *** Fourth pass *)

(** A keyword match names a catalogued landmark, reports a [matchScore]
    between 0.3 and 1 and no [similarityScore], carries the confidence of a
    label whose name is not a generic term, and needs a landmark-related
    label at confidence 85 or more in the input. *)
Theorem keyword_match_shape (labels : list Label) :
  matchType (identifyLandmark labels) = Some keyword ->
  exists (bestLabel : Label) (landmarkDef : LandmarkDef) (score : Q),
    In landmarkDef landmarkDefinitions
    /\ rawLandmarkName (identifyLandmark labels) = Some (primaryName landmarkDef)
    /\ matchScore (identifyLandmark labels) = Some score
    /\ 0.3 <= score /\ score <= 1
    /\ similarityScore (identifyLandmark labels) = None
    /\ In bestLabel labels
    /\ Str.arrayIncludes genericTerms (Name bestLabel) = false
    /\ confidence (identifyLandmark labels) = Some (Confidence bestLabel)
    /\ exists l, In l labels /\ isLandmarkRelatedLabel (Name l) = true
                 /\ 85 <= Confidence l.
Proof.
  pose proof (identifyLandmark_outcome labels) as H.
  destruct H as [label _ _ _ | label d _ _ _ _ _ | label d _ _ _
                 | b d score _ _ _ Hb Hlen Hd Hlo Hhi | b _ _ _ _ _ _ | _ _ _];
    simpl; try discriminate.
  intros _. apply bestLabelOf_nonGeneric in Hb as (Hl & Hg & _).
  exists b, d, score. repeat split; auto.
  destruct (landmarkLabels labels) as [|l rest] eqn:E; [simpl in Hlen; lia|].
  assert (Hin : In l (landmarkLabels labels)) by (rewrite E; now left).
  apply landmarkLabels_In in Hin. exists l. exact Hin.
Qed.

Lemma keyword_match_shape_witness :
  exists (bestLabel : Label) (landmarkDef : LandmarkDef) (score : Q),
    In landmarkDef landmarkDefinitions
    /\ rawLandmarkName (identifyLandmark [mkLabel "Paris Tower" 90])
       = Some (primaryName landmarkDef)
    /\ matchScore (identifyLandmark [mkLabel "Paris Tower" 90]) = Some score
    /\ 0.3 <= score /\ score <= 1.
Proof.
  destruct (keyword_match_shape [mkLabel "Paris Tower" 90])
    as (b & d & score & H1 & H2 & H3 & H4 & H5 & _).
  - vm_compute. reflexivity.
  - exists b, d, score. auto.
Defined.

(** A label returned as an unknown landmark is never a generic term, never
    the primary name and never an alternative name of a catalogued landmark;
    its confidence is at least 85 and the input holds at least two
    landmark-related labels at confidence 85 or more. *)
Theorem unknown_landmark_is_not_catalogued (labels : list Label) :
  matchType (identifyLandmark labels) = Some unknown ->
  exists bestLabel : Label,
    In bestLabel labels
    /\ rawLandmarkName (identifyLandmark labels) = Some (Name bestLabel)
    /\ confidence (identifyLandmark labels) = Some (Confidence bestLabel)
    /\ 85 <= Confidence bestLabel
    /\ ~ In (Name bestLabel) genericTerms
    /\ ~ In (Name bestLabel) (popularDestinations landmarkDefinitions)
    /\ (forall landmarkDef, In landmarkDef landmarkDefinitions ->
          ~ In (Name bestLabel) (alternativeNames landmarkDef))
    /\ (2 <= List.length (landmarkLabels labels))%nat.
Proof.
  pose proof (identifyLandmark_outcome labels) as H.
  destruct H as [label _ _ _ | label d _ _ _ _ _ | label d _ _ _
                 | b d score _ _ _ _ _ _ _ _ | b E1 E2 _ Hb Hlen Hc | _ _ _];
    simpl; try discriminate.
  intros _. apply bestLabelOf_nonGeneric in Hb as (Hl & Hg & Hc75).
  exists b. repeat split; auto.
  - intro Hin. change (In (Name b) genericTerms) in Hin.
    apply arrayIncludes_In in Hin. congruence.
  - intro Hin. exact (proj1 (firstPass_None _ _) E1 b Hl (conj Hin Hc75)).
  - intros d Hd Hin.
    exact (proj1 (secondPass_None _ _) E2 b d Hl Hd (conj Hin Hc75)).
Qed.

Lemma unknown_landmark_is_not_catalogued_witness :
  exists bestLabel : Label,
    rawLandmarkName
      (identifyLandmark [mkLabel "Ancient Ruins" 90; mkLabel "Historical Site" 88])
    = Some (Name bestLabel)
    /\ ~ In (Name bestLabel) (popularDestinations landmarkDefinitions).
Proof.
  destruct (unknown_landmark_is_not_catalogued
              [mkLabel "Ancient Ruins" 90; mkLabel "Historical Site" 88])
    as (b & _ & H1 & _ & _ & _ & H2 & _).
  - vm_compute. reflexivity.
  - exists b. auto.
Defined.

(** *** All matches *)

(** Every match but the unknown-landmark one names a landmark of the
    catalogue: the raw name is a primary name and the identifier is that
    name normalised. *)
Theorem match_names_catalogued_landmark (labels : list Label) :
  isLandmark (identifyLandmark labels) = true ->
  matchType (identifyLandmark labels) <> Some unknown ->
  exists landmarkDef,
    In landmarkDef landmarkDefinitions
    /\ rawLandmarkName (identifyLandmark labels) = Some (primaryName landmarkDef)
    /\ landmarkName (identifyLandmark labels)
       = normalizeLandmarkName (primaryName landmarkDef).
Proof.
  pose proof (identifyLandmark_outcome labels) as H.
  destruct H as [label _ Hn _ | label d _ _ Hd _ _ | label d _ _ (_ & Hd & _)
                 | b d score _ _ _ _ _ Hd _ _ | b _ _ _ _ _ _ | _ _ _];
    simpl; try discriminate.
  - intros _ _. unfold popularDestinations in Hn.
    apply in_map_iff in Hn as (d & <- & Hd). exists d. auto.
  - intros _ _. exists d. auto.
  - intros _ _. exists d. auto.
  - intros _ _. exists d. auto.
  - intros _ H. congruence.
Qed.

Lemma match_names_catalogued_landmark_witness :
  exists landmarkDef,
    In landmarkDef landmarkDefinitions
    /\ rawLandmarkName (identifyLandmark [mkLabel "The Colosseum" 90])
       = Some (primaryName landmarkDef).
Proof.
  destruct (match_names_catalogued_landmark [mkLabel "The Colosseum" 90])
    as (d & H1 & H2 & _).
  - vm_compute. reflexivity.
  - vm_compute. discriminate.
  - exists d. auto.
Defined.

Lemma match_names_not_empty (labels : list Label) :
  isLandmark (identifyLandmark labels) = true ->
  landmarkName (identifyLandmark labels) <> ""
  /\ rawLandmarkName (identifyLandmark labels) <> Some "".
Proof.
  pose proof (identifyLandmark_outcome labels) as H.
  destruct H as [label _ Hn _ | label d _ _ Hd _ _ | label d _ _ (_ & Hd & _)
                 | b d score _ _ _ _ _ Hd _ _ | b _ _ E3 Hb _ Hc | _ _ _];
    simpl; try discriminate; intros _.
  - unfold popularDestinations in Hn.
    apply in_map_iff in Hn as (d & <- & Hd).
    destruct (primaryNames_normalize_nonEmpty d Hd). split; congruence.
  - destruct (primaryNames_normalize_nonEmpty d Hd). split; congruence.
  - destruct (primaryNames_normalize_nonEmpty d Hd). split; congruence.
  - destruct (primaryNames_normalize_nonEmpty d Hd). split; congruence.
  - assert (Hne : normalizeLandmarkName (Name b) <> "").
    { intro Hz. apply bestLabelOf_nonGeneric in Hb as (Hl & _ & _).
      set (eiffel := mkDef "Eiffel Tower"
                           ["Tour Eiffel"; "Iron Lady"; "La Tour Eiffel"]
                           ["paris"; "france"; "iron"; "tower"]).
      apply (thirdPass_None_no_eligible labels b eiffel E3).
      repeat split; [exact Hl | simpl; auto | lra |].
      apply Qle_trans with (calculateSimilarity (Name b) (primaryName eiffel));
        [|apply pairSimilarity_ge_primary].
      rewrite (calculateSimilarity_empty_name (Name b) (primaryName eiffel) Hz);
        [apply Qle_refl | vm_compute; discriminate]. }
    split; [exact Hne|]. intros [= Hz]. apply Hne. now rewrite Hz.
Qed.

(** The identifier of a match, which the handler uses as the table key, is
    never the empty string, and neither is the raw name. *)
Theorem match_identifier_not_empty (labels : list Label) :
  isLandmark (identifyLandmark labels) = true ->
  landmarkName (identifyLandmark labels) <> ""
  /\ rawLandmarkName (identifyLandmark labels) <> Some "".
Proof. exact (match_names_not_empty labels). Qed.

Lemma match_identifier_not_empty_witness :
  landmarkName (identifyLandmark [mkLabel "Ancient Ruins" 90;
                                  mkLabel "Historical Site" 88]) <> "".
Proof.
  apply match_identifier_not_empty. vm_compute. reflexivity.
Defined.

(** The key the seeding Lambda computes for a name is the identifier the
    processing Lambda reports for a match with that raw name; in particular a
    match reported as "Eiffel Tower" is looked up under the key the seeded
    item was written with. *)
Theorem seeded_key_is_lookup_key (labels : list Label) (raw : string) :
  rawLandmarkName (identifyLandmark labels) = Some raw ->
  landmarkName (identifyLandmark labels) = DynamoData.normalizeLandmarkName raw
  /\ (raw = seededRawLandmarkName ->
      landmarkName (identifyLandmark labels) = seededLandmarkId).
Proof.
  intro Hraw.
  destruct (resultInvariant_with landmarkDefinitions labels) as (_ & Hm & Hn).
  fold (identifyLandmark labels) in Hm, Hn.
  assert (E : landmarkName (identifyLandmark labels)
              = DynamoData.normalizeLandmarkName raw).
  { destruct (isLandmark (identifyLandmark labels)) eqn:Ei.
    - destruct (Hm eq_refl) as (raw' & Hr & Hl).
      rewrite Hraw in Hr. injection Hr as <-.
      now rewrite Hl, dynamo_normalizeLandmarkName_eq, normalizeLandmarkName_eq.
    - destruct (Hn eq_refl) as [_ Hr]. congruence. }
  split; [exact E|]. intros ->. exact E.
Qed.

Lemma seeded_key_is_lookup_key_witness :
  landmarkName (identifyLandmark [mkLabel "Tour Eiffel" 80]) = seededLandmarkId.
Proof.
  destruct (seeded_key_is_lookup_key [mkLabel "Tour Eiffel" 80] "Eiffel Tower")
    as [_ H].
  - vm_compute. reflexivity.
  - apply H. reflexivity.
Defined.

(** ** Plain names and the word-overlap rule *)

Lemma char_isWord_toLowerCase (c : ascii) :
  Char.isWord (Char.toLowerCase c) = Char.isWord c.
Proof. destruct c as [[] [] [] [] [] [] [] []]; vm_compute; reflexivity. Qed.

Lemma char_isWord_not_isSpace (c : ascii) :
  Char.isWord c = true -> Char.isSpace c = false.
Proof. destruct c as [[] [] [] [] [] [] [] []]; vm_compute; congruence. Qed.

Lemma normalize_plain_all_word (s : string) :
  Str.all isPlainChar s = true ->
  Str.all Char.isWord (normalizeLandmarkName s) = true.
Proof.
  rewrite normalizeLandmarkName_eq.
  induction s as [|c s IH]; simpl; [reflexivity|].
  intro H. apply andb_true_iff in H as [Hc Hs].
  rewrite char_isSpace_toLowerCase.
  destruct (Char.isSpace c) eqn:Esp; [now apply IH|].
  simpl. rewrite char_isWord_toLowerCase, (IH Hs), andb_true_r.
  unfold isPlainChar in Hc. rewrite Esp, orb_false_r in Hc. exact Hc.
Qed.

Lemma string_app_nil_r (s : string) : (s ++ "")%string = s.
Proof. induction s as [|c s IH]; simpl; [reflexivity | now rewrite IH]. Qed.

(** A string of word characters is a single piece for [split(/\W+/)]. *)
Lemma splitNonWordFrom_all_word (s cur : string) (inSep : bool) :
  Str.all Char.isWord s = true ->
  Str.splitNonWordFrom s cur inSep = [(cur ++ s)%string].
Proof.
  revert cur inSep. induction s as [|c s IH]; intros cur inSep; simpl.
  - intros _. now rewrite string_app_nil_r.
  - intro H. apply andb_true_iff in H as [Hc Hs]. rewrite Hc.
    rewrite (IH _ _ Hs). now rewrite string_app_assoc.
Qed.

Lemma words_all_word (s : string) :
  Str.all Char.isWord s = true -> (List.length (words s) <= 1)%nat.
Proof.
  intro H. unfold words, Str.splitNonWord.
  rewrite (splitNonWordFrom_all_word _ _ _ H). simpl.
  destruct (nonEmpty s); simpl; lia.
Qed.

(** Names made of the ASCII letters A-Z and a-z, the digits, underscores and
    whitespace only never reach the word-overlap rule: normalisation has
    removed the spaces before the string is split, so each is one token.
    When their normalised forms differ and neither contains the other, the
    score is 0.  (Any other code unit, an accented letter included, splits
    the string and brings the rule back.) *)
Theorem plain_names_never_overlap (a b : string) :
  Str.all isPlainChar a = true ->
  Str.all isPlainChar b = true ->
  normalizeLandmarkName a <> normalizeLandmarkName b ->
  ~ isSubstring (normalizeLandmarkName b) (normalizeLandmarkName a) ->
  ~ isSubstring (normalizeLandmarkName a) (normalizeLandmarkName b) ->
  calculateSimilarity a b == 0.
Proof.
  intros Ha Hb Hne H1 H2.
  apply normalize_plain_all_word, words_all_word in Ha.
  apply normalize_plain_all_word, words_all_word in Hb.
  apply includes_false in H1. apply includes_false in H2.
  destruct (calculateSimilarity_cases a b)
    as [He _ | _ Hi _ | _ _ Hm _ _ | _ _ _ E].
  - contradiction.
  - rewrite H1, H2 in Hi. discriminate.
  - unfold multiWord in Hm. apply orb_true_iff in Hm.
    rewrite !Nat.ltb_lt in Hm. lia.
  - rewrite E. reflexivity.
Qed.

Lemma plain_names_never_overlap_witness :
  calculateSimilarity "Eiffel Tower Paris" "Tower Eiffel" == 0.
Proof.
  apply plain_names_never_overlap.
  - reflexivity.
  - reflexivity.
  - vm_compute. discriminate.
  - apply not_isSubstring. vm_compute. reflexivity.
  - apply not_isSubstring. vm_compute. reflexivity.
Defined.

(** * The earlier versions of the image-processing Lambda *)

(** ** The version that picks a primary label *)

Lemma reduceMoreConfident_last (first : Label) (rest : list Label) :
  isLastMostConfident (first :: rest)
                      (PrimaryLabel.reduceMoreConfident first rest).
Proof.
  unfold PrimaryLabel.reduceMoreConfident.
  induction rest as [|y rest IH] using rev_ind.
  - exists [], []. repeat split; intros x [].
  - rewrite fold_left_app. simpl.
    destruct IH as (pre & post & E & Hpre & Hpost).
    set (b := fold_left PrimaryLabel.moreConfident rest first) in *.
    unfold PrimaryLabel.moreConfident.
    destruct (Qltb (Confidence y) (Confidence b)) eqn:Ey.
    + apply Qltb_lt in Ey. exists pre, (post ++ [y]).
      split; [|split].
      * change (first :: rest ++ [y]) with ((first :: rest) ++ [y]).
        rewrite E, <- app_assoc. reflexivity.
      * exact Hpre.
      * intros x Hx. apply in_app_or in Hx as [Hx|[<-|[]]]; auto.
    + apply Qltb_ge in Ey. exists (first :: rest), [].
      split; [|split].
      * reflexivity.
      * intros x Hx. rewrite E in Hx.
        apply in_app_or in Hx as [Hx|[<-|Hx]].
        -- apply Qle_trans with (Confidence b); auto.
        -- exact Ey.
        -- apply Qle_trans with (Confidence b); [|exact Ey].
           apply Qlt_le_weak. auto.
      * intros x [].
Qed.

Lemma isLastMostConfident_member (l : list Label) (b : Label) :
  isLastMostConfident l b -> In b l.
Proof.
  intros (pre & post & -> & _). apply in_or_app. right. now left.
Qed.

Lemma determinePrimaryLandmarkLabel_In (labels : list Label) (b : Label) :
  PrimaryLabel.determinePrimaryLandmarkLabel labels = Some b -> In b labels.
Proof.
  unfold PrimaryLabel.determinePrimaryLandmarkLabel.
  destruct (filter PrimaryLabel.isSpecificLandmark labels) as [|x l] eqn:Es.
  - destruct (filter PrimaryLabel.isHighConfidenceLandmark labels) as [|x l] eqn:Ek.
    + destruct labels as [|x l]; [discriminate|].
      intros [= <-]. apply isLastMostConfident_member, reduceMoreConfident_last.
    + intros [= <-].
      assert (Hin : In (PrimaryLabel.reduceMoreConfident x l)
                       (filter PrimaryLabel.isHighConfidenceLandmark labels)).
      { rewrite Ek. apply isLastMostConfident_member, reduceMoreConfident_last. }
      now apply filter_In in Hin.
  - intros [= <-].
    assert (Hin : In (PrimaryLabel.reduceMoreConfident x l)
                     (filter PrimaryLabel.isSpecificLandmark labels)).
    { rewrite Es. apply isLastMostConfident_member, reduceMoreConfident_last. }
    now apply filter_In in Hin.
Qed.

Lemma determinePrimaryLandmarkLabel_Some (labels : list Label) :
  labels <> [] ->
  exists b, PrimaryLabel.determinePrimaryLandmarkLabel labels = Some b.
Proof.
  intro H. unfold PrimaryLabel.determinePrimaryLandmarkLabel.
  destruct (filter PrimaryLabel.isSpecificLandmark labels); [|eauto].
  destruct (filter PrimaryLabel.isHighConfidenceLandmark labels); [|eauto].
  destruct labels; [congruence | eauto].
Qed.

(** [determinePrimaryLandmarkLabel] answers [null] on the empty label list
    only. *)
Theorem determinePrimaryLandmarkLabel_null_iff_empty (labels : list Label) :
  PrimaryLabel.determinePrimaryLandmarkLabel labels = None <-> labels = [].
Proof.
  unfold PrimaryLabel.determinePrimaryLandmarkLabel. split.
  - destruct (filter PrimaryLabel.isSpecificLandmark labels); [|discriminate].
    destruct (filter PrimaryLabel.isHighConfidenceLandmark labels); [|discriminate].
    destruct labels; [reflexivity | discriminate].
  - intros ->. reflexivity.
Qed.

Lemma determinePrimaryLandmarkLabel_null_iff_empty_witness :
  PrimaryLabel.determinePrimaryLandmarkLabel [] = None.
Proof.
  apply (proj2 (determinePrimaryLandmarkLabel_null_iff_empty [])). reflexivity.
Defined.

(** The label chosen comes from the first non-empty group among: the
    specific landmark names above confidence 90, the labels holding a
    landmark keyword above confidence 80, all labels.  Within the group it
    is the most confident one, and the last of them on a tie. *)
Theorem determinePrimaryLandmarkLabel_priority (labels : list Label) :
  (filter PrimaryLabel.isSpecificLandmark labels <> [] ->
   exists b, PrimaryLabel.determinePrimaryLandmarkLabel labels = Some b
             /\ isLastMostConfident
                  (filter PrimaryLabel.isSpecificLandmark labels) b)
  /\ (filter PrimaryLabel.isSpecificLandmark labels = [] ->
      filter PrimaryLabel.isHighConfidenceLandmark labels <> [] ->
      exists b, PrimaryLabel.determinePrimaryLandmarkLabel labels = Some b
                /\ isLastMostConfident
                     (filter PrimaryLabel.isHighConfidenceLandmark labels) b)
  /\ (filter PrimaryLabel.isSpecificLandmark labels = [] ->
      filter PrimaryLabel.isHighConfidenceLandmark labels = [] ->
      labels <> [] ->
      exists b, PrimaryLabel.determinePrimaryLandmarkLabel labels = Some b
                /\ isLastMostConfident labels b).
Proof.
  unfold PrimaryLabel.determinePrimaryLandmarkLabel.
  split; [|split].
  - intro H.
    destruct (filter PrimaryLabel.isSpecificLandmark labels) as [|x l];
      [congruence|].
    eexists. split; [reflexivity | apply reduceMoreConfident_last].
  - intros -> H.
    destruct (filter PrimaryLabel.isHighConfidenceLandmark labels) as [|x l];
      [congruence|].
    eexists. split; [reflexivity | apply reduceMoreConfident_last].
  - intros -> -> H. destruct labels as [|x l]; [congruence|].
    eexists. split; [reflexivity | apply reduceMoreConfident_last].
Qed.

Lemma determinePrimaryLandmarkLabel_priority_witness :
  exists b,
    PrimaryLabel.determinePrimaryLandmarkLabel
      [mkLabel "Sky" 99; mkLabel "Colosseum" 91; mkLabel "Eiffel Tower" 91]
    = Some b
    /\ isLastMostConfident
         (filter PrimaryLabel.isSpecificLandmark
                 [mkLabel "Sky" 99; mkLabel "Colosseum" 91; mkLabel "Eiffel Tower" 91])
         b.
Proof.
  destruct (determinePrimaryLandmarkLabel_priority
              [mkLabel "Sky" 99; mkLabel "Colosseum" 91; mkLabel "Eiffel Tower" 91])
    as [H _].
  apply H. vm_compute. discriminate.
Defined.

(** This version reports a landmark for every non-empty label list, whatever
    the labels are, unless the label [determinePrimaryLandmarkLabel] picks
    normalises to "unknownlandmark"; the raw name is that label's name and
    the identifier its normalised form.  On the empty list it reports none,
    with the identifier "unknownlandmark". *)
Theorem primaryLabel_identifyLandmark_shape (labels : list Label) :
  (labels = [] ->
   PrimaryLabel.identifyLandmark labels
   = mkResult false "unknownlandmark" None labels None None None None)
  /\ (labels <> [] ->
      exists b,
        PrimaryLabel.determinePrimaryLandmarkLabel labels = Some b
        /\ In b labels
        /\ rawLandmarkName (PrimaryLabel.identifyLandmark labels) = Some (Name b)
        /\ landmarkName (PrimaryLabel.identifyLandmark labels)
           = normalizeLandmarkName (Name b)
        /\ (isLandmark (PrimaryLabel.identifyLandmark labels) = true
            <-> normalizeLandmarkName (Name b) <> "unknownlandmark")).
Proof.
  split.
  - intros ->. reflexivity.
  - intro Hne. unfold PrimaryLabel.identifyLandmark.
    destruct (determinePrimaryLandmarkLabel_Some labels Hne) as [b E].
    rewrite E. exists b. cbv zeta. simpl.
    split; [reflexivity|].
    split; [now apply determinePrimaryLandmarkLabel_In|].
    split; [reflexivity|]. split; [reflexivity|].
    rewrite negb_true_iff. apply String.eqb_neq.
Qed.

(** The theorem on a list whose first and most confident label is not the
    one picked: the specific landmark name above 90 goes first. *)
Lemma primaryLabel_identifyLandmark_shape_witness :
  rawLandmarkName
    (PrimaryLabel.identifyLandmark [mkLabel "Dog" 99; mkLabel "Eiffel Tower" 95])
  = Some "Eiffel Tower"
  /\ landmarkName
       (PrimaryLabel.identifyLandmark [mkLabel "Dog" 99; mkLabel "Eiffel Tower" 95])
     = "eiffeltower".
Proof.
  destruct (primaryLabel_identifyLandmark_shape
              [mkLabel "Dog" 99; mkLabel "Eiffel Tower" 95]) as [_ H].
  destruct H as (b & Hb & _ & Hraw & Hname & _); [discriminate|].
  vm_compute in Hb. injection Hb as <-.
  split; [exact Hraw | exact Hname].
Defined.

(** ** The version with landmark rules *)

Lemma someLabelAbove_spec (labels : list Label) (n : string) (t : Q) :
  someLabelAbove labels n t = true
  <-> exists l, In l labels /\ Name l = n /\ t < Confidence l.
Proof.
  unfold someLabelAbove. rewrite existsb_exists.
  split; intros (l & Hl & H); exists l; split; auto.
  - apply andb_true_iff in H as [Hn Hc].
    apply String.eqb_eq in Hn. apply Qltb_lt in Hc. auto.
  - destruct H as [Hn Hc]. apply andb_true_iff. split.
    + now apply String.eqb_eq.
    + now apply Qltb_lt.
Qed.

Lemma someLabelAtLeast_spec (labels : list Label) (n : string) (t : Q) :
  someLabelAtLeast labels n t = true
  <-> exists l, In l labels /\ Name l = n /\ t <= Confidence l.
Proof.
  unfold someLabelAtLeast. rewrite existsb_exists.
  split; intros (l & Hl & H); exists l; split; auto.
  - apply andb_true_iff in H as [Hn Hc].
    apply String.eqb_eq in Hn. apply Qle_bool_iff in Hc. auto.
  - destruct H as [Hn Hc]. apply andb_true_iff. split.
    + now apply String.eqb_eq.
    + now apply Qle_bool_iff.
Qed.

Lemma someLabelAbove_mono (labels labels' : list Label) (n : string) (t : Q) :
  (forall l, In l labels -> In l labels') ->
  someLabelAbove labels n t = true -> someLabelAbove labels' n t = true.
Proof.
  intros Hsub H. apply someLabelAbove_spec in H as (l & Hl & H).
  apply someLabelAbove_spec. exists l. auto.
Qed.

Lemma someLabelAtLeast_mono (labels labels' : list Label) (n : string) (t : Q) :
  (forall l, In l labels -> In l labels') ->
  someLabelAtLeast labels n t = true -> someLabelAtLeast labels' n t = true.
Proof.
  intros Hsub H. apply someLabelAtLeast_spec in H as (l & Hl & H).
  apply someLabelAtLeast_spec. exists l. auto.
Qed.

Lemma find_Some_existsb {A : Type} (f : A -> bool) (l : list A) :
  (exists x, find f l = Some x) <-> existsb f l = true.
Proof.
  induction l as [|a l IH]; simpl.
  - split; [intros [x H]; discriminate | discriminate].
  - destruct (f a); simpl; [|exact IH]. split; eauto.
Qed.

Lemma statue_found (labels : list Label) :
  (exists x, find (fun label => String.eqb (Name label) "Statue of Liberty"
                                && Qle_bool 80 (Confidence label)) labels = Some x)
  <-> someLabelAtLeast labels "Statue of Liberty" 80 = true.
Proof. apply find_Some_existsb. Qed.

Lemma rulePasses_mono (labels labels' : list Label) (rule : Rules.LandmarkRule) :
  In rule Rules.landmarkRules ->
  (forall l, In l labels -> In l labels') ->
  Rules.rulePasses labels rule = true -> Rules.rulePasses labels' rule = true.
Proof.
  intros Hr Hsub.
  pose proof (someLabelAbove_mono labels labels') as HA.
  pose proof (someLabelAtLeast_mono labels labels') as HL.
  simpl in Hr. destruct Hr as [<-|[<-|[<-|[<-|[]]]]];
    unfold Rules.rulePasses; simpl;
    rewrite !andb_true_iff, !orb_true_iff;
    intuition auto.
Qed.

(** The rules hold or fail together on two label lists with the same
    entries, and so does the whole function: the order of the labels and
    their repetitions never matter. *)
Theorem determineLandmarkFromLabels_order_independent
    (labels labels' : list Label) :
  (forall l, In l labels <-> In l labels') ->
  Rules.determineLandmarkFromLabels labels
  = Rules.determineLandmarkFromLabels labels'.
Proof.
  intro Hsame.
  assert (H1 : forall l, In l labels -> In l labels') by (intros; now apply Hsame).
  assert (H2 : forall l, In l labels' -> In l labels) by (intros; now apply Hsame).
  assert (Hrule : forall rule, In rule Rules.landmarkRules ->
                    Rules.rulePasses labels rule = Rules.rulePasses labels' rule).
  { intros rule Hr.
    destruct (Rules.rulePasses labels rule) eqn:E.
    - symmetry. now apply (rulePasses_mono labels labels').
    - destruct (Rules.rulePasses labels' rule) eqn:E'; [|reflexivity].
      apply (rulePasses_mono labels' labels) in E'; auto. congruence. }
  unfold Rules.determineLandmarkFromLabels.
  assert (Hst : someLabelAtLeast labels "Statue of Liberty" 80
                = someLabelAtLeast labels' "Statue of Liberty" 80).
  { destruct (someLabelAtLeast labels "Statue of Liberty" 80) eqn:E.
    - symmetry. now apply (someLabelAtLeast_mono labels labels').
    - destruct (someLabelAtLeast labels' "Statue of Liberty" 80) eqn:E';
        [|reflexivity].
      apply (someLabelAtLeast_mono labels' labels) in E'; auto. congruence. }
  destruct (find _ labels) as [x|] eqn:Ef; destruct (find _ labels') as [x'|] eqn:Ef'.
  - reflexivity.
  - exfalso. assert (Hx : exists y, find _ labels = Some y) by eauto.
    apply statue_found in Hx. rewrite Hst in Hx.
    apply statue_found in Hx as [y Hy]. congruence.
  - exfalso. assert (Hx : exists y, find _ labels' = Some y) by eauto.
    apply statue_found in Hx. rewrite <- Hst in Hx.
    apply statue_found in Hx as [y Hy]. congruence.
  - simpl. rewrite !Hrule by (simpl; auto 10). reflexivity.
Qed.

Lemma determineLandmarkFromLabels_order_independent_witness :
  Rules.determineLandmarkFromLabels
    [mkLabel "Paris" 71; mkLabel "Tower" 80; mkLabel "Architecture" 99]
  = Rules.determineLandmarkFromLabels
      [mkLabel "Architecture" 99; mkLabel "Tower" 80; mkLabel "Paris" 71;
       mkLabel "Tower" 80].
Proof.
  apply determineLandmarkFromLabels_order_independent.
  intro l. simpl. tauto.
Defined.

Lemma rule_names_known (rule : Rules.LandmarkRule) :
  In rule Rules.landmarkRules ->
  In (Rules.name rule)
     ["Eiffel Tower"; "Colosseum"; "Great Pyramid of Giza";
      "Neuschwanstein Castle"].
Proof.
  intro H. simpl in H. destruct H as [<-|[<-|[<-|[<-|[]]]]]; simpl; auto.
Qed.

Lemma determineLandmarkFromLabels_unknown (labels : list Label) :
  Rules.determineLandmarkFromLabels labels = "Unknown Landmark"
  <-> someLabelAtLeast labels "Statue of Liberty" 80 = false
      /\ forall rule, In rule Rules.landmarkRules ->
                      Rules.rulePasses labels rule = false.
Proof.
  unfold Rules.determineLandmarkFromLabels.
  destruct (find _ labels) as [x|] eqn:Ef.
  - assert (Hx : exists y, find (fun label => String.eqb (Name label) "Statue of Liberty"
                                  && Qle_bool 80 (Confidence label)) labels = Some y)
      by eauto.
    apply statue_found in Hx. split; [discriminate|]. intros [H _]. congruence.
  - assert (Hst : someLabelAtLeast labels "Statue of Liberty" 80 = false).
    { destruct (someLabelAtLeast labels "Statue of Liberty" 80) eqn:E;
        [|reflexivity].
      apply statue_found in E as [y Hy]. congruence. }
    destruct (firstSome _ Rules.landmarkRules) as [n|] eqn:Er.
    + apply firstSome_Some in Er as (rule & Hr & Hp).
      destruct (Rules.rulePasses labels rule) eqn:Ep; [|discriminate].
      injection Hp as <-. split.
      * intro Hn. apply rule_names_known in Hr. rewrite Hn in Hr.
        simpl in Hr. exfalso. intuition discriminate.
      * intros [_ H]. rewrite (H rule Hr) in Ep. discriminate.
    + split; [|reflexivity]. intros _. split; [exact Hst|].
      intros rule Hr.
      apply (proj1 (firstSome_None _ _)) with (x := rule) in Er; [|exact Hr].
      cbv beta in Er. destruct (Rules.rulePasses labels rule); [discriminate|reflexivity].
Qed.

(** Adding labels never loses a landmark: when the function names a
    landmark on a label list, it names one (the same or another) on every
    list that contains those labels. *)
Theorem determineLandmarkFromLabels_monotone (labels labels' : list Label) :
  (forall l, In l labels -> In l labels') ->
  Rules.determineLandmarkFromLabels labels <> "Unknown Landmark" ->
  Rules.determineLandmarkFromLabels labels' <> "Unknown Landmark".
Proof.
  intros Hsub Hk Hu. apply Hk.
  apply determineLandmarkFromLabels_unknown in Hu as [Hst Hrules].
  apply determineLandmarkFromLabels_unknown. split.
  - destruct (someLabelAtLeast labels "Statue of Liberty" 80) eqn:E;
      [|reflexivity].
    apply (someLabelAtLeast_mono labels labels') in E; auto. congruence.
  - intros rule Hr.
    destruct (Rules.rulePasses labels rule) eqn:E; [|reflexivity].
    apply (rulePasses_mono labels labels') in E; auto.
    rewrite (Hrules rule Hr) in E. discriminate.
Qed.

Lemma determineLandmarkFromLabels_monotone_witness :
  Rules.determineLandmarkFromLabels
    [mkLabel "Statue of Liberty" 80; mkLabel "Castle" 90; mkLabel "Bavaria" 75]
  <> "Unknown Landmark".
Proof.
  apply (determineLandmarkFromLabels_monotone
           [mkLabel "Castle" 90; mkLabel "Bavaria" 75]).
  - intros l H. simpl in *. tauto.
  - vm_compute. discriminate.
Defined.

(** The function answers "Eiffel Tower" exactly when no label is
    "Statue of Liberty" at confidence 80 or more, a "Tower" and an
    "Architecture" label have confidence 80 or more, and a "Paris" or a
    "France" label has confidence above 70. *)
Theorem determineLandmarkFromLabels_eiffel (labels : list Label) :
  Rules.determineLandmarkFromLabels labels = "Eiffel Tower"
  <-> ~ hasLabelAtLeast labels "Statue of Liberty" 80
      /\ hasLabelAtLeast labels "Tower" 80
      /\ hasLabelAtLeast labels "Architecture" 80
      /\ (hasLabelAbove labels "Paris" 70 \/ hasLabelAbove labels "France" 70).
Proof.
  unfold hasLabelAtLeast, hasLabelAbove.
  rewrite <- !someLabelAtLeast_spec, <- !someLabelAbove_spec.
  unfold Rules.determineLandmarkFromLabels.
  destruct (find _ labels) as [x|] eqn:Ef.
  - assert (Hx : exists y, find (fun label => String.eqb (Name label) "Statue of Liberty"
                                  && Qle_bool 80 (Confidence label)) labels = Some y)
      by eauto.
    apply statue_found in Hx. split; [discriminate | tauto].
  - assert (Hst : someLabelAtLeast labels "Statue of Liberty" 80 = false).
    { destruct (someLabelAtLeast labels "Statue of Liberty" 80) eqn:E;
        [|reflexivity].
      apply statue_found in E as [y Hy]. congruence. }
    rewrite Hst. unfold Rules.landmarkRules. cbn [firstSome].
    unfold Rules.rulePasses at 1. cbn [Rules.indicators Rules.confidenceThreshold
                                       Rules.additionalChecks Rules.name forallb].
    rewrite andb_true_r.
    destruct (someLabelAtLeast labels "Tower" 80);
      destruct (someLabelAtLeast labels "Architecture" 80);
      destruct (someLabelAbove labels "Paris" 70);
      destruct (someLabelAbove labels "France" 70); cbn [andb orb];
      repeat match goal with
             | |- context [if Rules.rulePasses labels ?r then _ else _] =>
                 destruct (Rules.rulePasses labels r)
             end;
      (split; [intro; try discriminate; intuition congruence
              | intuition congruence]).
Qed.

Lemma determineLandmarkFromLabels_eiffel_witness :
  Rules.determineLandmarkFromLabels
    [mkLabel "Architecture" 99; mkLabel "Tower" 80; mkLabel "France" 71]
  = "Eiffel Tower".
Proof.
  apply (proj2 (determineLandmarkFromLabels_eiffel _)).
  split; [|split; [|split]].
  - intros (l & Hl & Hn & _). simpl in Hl.
    destruct Hl as [<-|[<-|[<-|[]]]]; discriminate Hn.
  - exists (mkLabel "Tower" 80). simpl. repeat split; auto.
    vm_compute. discriminate.
  - exists (mkLabel "Architecture" 99). simpl. repeat split; auto.
    vm_compute. discriminate.
  - right. exists (mkLabel "France" 71). simpl. repeat split; auto.
Defined.

Lemma determineLandmarkFromLabels_range (labels : list Label) :
  In (Rules.determineLandmarkFromLabels labels)
     ["Statue of Liberty"; "Eiffel Tower"; "Colosseum"; "Great Pyramid of Giza";
      "Neuschwanstein Castle"; "Unknown Landmark"].
Proof.
  unfold Rules.determineLandmarkFromLabels.
  destruct (find _ labels); [simpl; auto|].
  destruct (firstSome _ Rules.landmarkRules) as [n|] eqn:Er; [|simpl; auto 10].
  apply firstSome_Some in Er as (rule & Hr & Hp).
  destruct (Rules.rulePasses labels rule); [|discriminate].
  injection Hp as <-. apply rule_names_known in Hr. simpl in *. intuition auto.
Qed.

(** The name this version reports is one of six fixed names, written with
    capitals and spaces; it reports a landmark exactly when the name is not
    "Unknown Landmark".  The name is used as the table key as it is, so it is
    never the key under which the seeding Lambda writes its item. *)
Theorem rules_identifyLandmark_names (labels : list Label) :
  In (landmarkName (Rules.identifyLandmark labels))
     ["Statue of Liberty"; "Eiffel Tower"; "Colosseum"; "Great Pyramid of Giza";
      "Neuschwanstein Castle"; "Unknown Landmark"]
  /\ (isLandmark (Rules.identifyLandmark labels) = true
      <-> landmarkName (Rules.identifyLandmark labels) <> "Unknown Landmark")
  /\ landmarkName (Rules.identifyLandmark labels)
     <> normalizeLandmarkName (landmarkName (Rules.identifyLandmark labels))
  /\ landmarkName (Rules.identifyLandmark labels) <> seededLandmarkId.
Proof.
  unfold Rules.identifyLandmark. cbv zeta. cbn [landmarkName isLandmark].
  pose proof (determineLandmarkFromLabels_range labels) as H.
  split; [exact H|]. split; [|split].
  - rewrite negb_true_iff. apply String.eqb_neq.
  - simpl in H.
    destruct H as [<-|[<-|[<-|[<-|[<-|[<-|[]]]]]]]; vm_compute; discriminate.
  - simpl in H.
    destruct H as [<-|[<-|[<-|[<-|[<-|[<-|[]]]]]]]; vm_compute; discriminate.
Qed.

Lemma rules_identifyLandmark_names_witness :
  isLandmark (Rules.identifyLandmark
                [mkLabel "Pyramid" 80; mkLabel "Giza" 71]) = true.
Proof.
  destruct (rules_identifyLandmark_names [mkLabel "Pyramid" 80; mkLabel "Giza" 71])
    as (_ & H & _).
  apply H. vm_compute. discriminate.
Defined.

(** ** The first version *)

Lemma isLandmarkImage_spec (labels : list Label) :
  Guess.isLandmarkImage labels = true
  <-> exists l, In l labels /\ In (Name l) Guess.landmarkLabels
                /\ 70 < Confidence l.
Proof.
  unfold Guess.isLandmarkImage. rewrite existsb_exists.
  split; intros (l & Hl & H); exists l; split; auto.
  - apply andb_true_iff in H as [Hn Hc].
    apply arrayIncludes_In in Hn. apply Qltb_lt in Hc. auto.
  - destruct H as [Hn Hc]. apply andb_true_iff. split.
    + now apply arrayIncludes_In.
    + now apply Qltb_lt.
Qed.

(** In the first version a "Tower" label above confidence 80 decides alone:
    whatever else the image shows, the result is the landmark
    "Eiffel Tower" with the fixed confidence 85.5. *)
Theorem guess_tower_is_eiffel (labels : list Label) :
  hasLabelAbove labels "Tower" 80 ->
  Guess.identifyLandmark labels
  = Guess.mkGuess true (Some "Eiffel Tower") (Some 85.5) None.
Proof.
  intro H. unfold Guess.identifyLandmark.
  assert (Hg : Guess.isLandmarkImage labels = true).
  { apply isLandmarkImage_spec. destruct H as (l & Hl & Hn & Hc).
    exists l. split; [exact Hl|]. split.
    - rewrite Hn. simpl. auto.
    - lra. }
  rewrite Hg. simpl. unfold Guess.determineLandmarkFromLabels.
  now rewrite (proj2 (someLabelAbove_spec _ _ _) H).
Qed.

Lemma guess_tower_is_eiffel_witness :
  Guess.identifyLandmark [mkLabel "Clock" 99; mkLabel "Tower" 81]
  = Guess.mkGuess true (Some "Eiffel Tower") (Some 85.5) None.
Proof.
  apply guess_tower_is_eiffel.
  exists (mkLabel "Tower" 81). simpl. repeat split; auto.
Defined.

(** In the first version "Colosseum" is reported exactly when a "Colosseum"
    label is above confidence 80, no "Tower" and no "Statue" label is, and
    some label of the gate list (which "Colosseum" is not in) is above
    confidence 70: a confident "Colosseum" label alone is rejected. *)
Theorem guess_colosseum (labels : list Label) :
  Guess.landmarkName (Guess.identifyLandmark labels) = Some "Colosseum"
  <-> (exists l, In l labels /\ In (Name l) Guess.landmarkLabels
                 /\ 70 < Confidence l)
      /\ ~ hasLabelAbove labels "Tower" 80
      /\ ~ hasLabelAbove labels "Statue" 80
      /\ hasLabelAbove labels "Colosseum" 80.
Proof.
  rewrite <- isLandmarkImage_spec. unfold hasLabelAbove.
  rewrite <- !someLabelAbove_spec.
  unfold Guess.identifyLandmark, Guess.determineLandmarkFromLabels.
  destruct (Guess.isLandmarkImage labels); simpl.
  - destruct (someLabelAbove labels "Tower" 80);
      destruct (someLabelAbove labels "Statue" 80);
      destruct (someLabelAbove labels "Colosseum" 80);
      try (split; [intro; try discriminate; intuition congruence
                  | intuition congruence]).
    destruct (someLabelAbove labels "Pyramid" 80);
      destruct (someLabelAbove labels "Castle" 80);
      (split; [discriminate | intuition congruence]).
  - split; [discriminate | intuition congruence].
Qed.

Lemma guess_colosseum_witness :
  Guess.landmarkName
    (Guess.identifyLandmark [mkLabel "Colosseum" 95; mkLabel "Architecture" 71])
  = Some "Colosseum".
Proof.
  apply (proj2 (guess_colosseum _)).
  split; [|split; [|split]].
  - exists (mkLabel "Architecture" 71). simpl. repeat split; auto 10.
  - intros (l & Hl & Hn & _). simpl in Hl.
    destruct Hl as [<-|[<-|[]]]; discriminate Hn.
  - intros (l & Hl & Hn & _). simpl in Hl.
    destruct Hl as [<-|[<-|[]]]; discriminate Hn.
  - exists (mkLabel "Colosseum" 95). simpl. repeat split; auto.
Defined.

(** A confident "Colosseum" label alone is rejected by the first version. *)
Lemma guess_colosseum_alone_rejected :
  Guess.identifyLandmark [mkLabel "Colosseum" 99]
  = Guess.mkGuess false None None (Some "No landmark detected in the image").
Proof. reflexivity. Qed.

(** * The pure parts of the handler *)

(** The handler reaches its fallback record only after a match.  There the
    raw name is present and not empty, so [rawLandmarkName || landmarkName]
    is always the raw name: the record is named by it, keyed by its
    normalised form, and both descriptions quote it (the French one never
    prints "undefined"). *)
Theorem handler_fallback_uses_raw_name (labels : list Label) :
  isLandmark (identifyLandmark labels) = true ->
  exists raw,
    rawLandmarkName (identifyLandmark labels) = Some raw
    /\ raw <> ""
    /\ Handler.name (Handler.fallbackLandmarkInfo (identifyLandmark labels)) = raw
    /\ Handler.LandmarkId (Handler.fallbackLandmarkInfo (identifyLandmark labels))
       = normalizeLandmarkName raw
    /\ Handler.descriptionEn (Handler.fallbackLandmarkInfo (identifyLandmark labels))
       = ("This appears to be " ++ raw ++ ".")%string
    /\ Handler.descriptionFr (Handler.fallbackLandmarkInfo (identifyLandmark labels))
       = ("Cela semble " ++ String "234"%char "tre " ++ raw ++ ".")%string.
Proof.
  intro Hm.
  destruct (resultInvariant_with landmarkDefinitions labels) as (_ & Hraw & _).
  fold (identifyLandmark labels) in Hraw.
  destruct (Hraw Hm) as (raw & Er & El).
  destruct (match_names_not_empty labels Hm) as [_ Hne].
  assert (Hraw' : raw <> "") by (intros ->; congruence).
  exists raw. unfold Handler.fallbackLandmarkInfo. cbv zeta.
  cbn [Handler.name Handler.LandmarkId Handler.descriptionEn Handler.descriptionFr].
  rewrite Er, El. unfold Handler.orString, Handler.orSelf, Handler.interpolate.
  destruct raw as [|c raw']; [congruence|].
  cbn [truthy Str.isEmpty negb]. repeat split; auto.
Qed.

Lemma handler_fallback_uses_raw_name_witness :
  exists raw,
    Handler.name (Handler.fallbackLandmarkInfo
                    (identifyLandmark [mkLabel "Tour Eiffel" 80])) = raw
    /\ raw <> "".
Proof.
  destruct (handler_fallback_uses_raw_name [mkLabel "Tour Eiffel" 80])
    as (raw & _ & H1 & H2 & _).
  - vm_compute. reflexivity.
  - exists raw. auto.
Defined.

Lemma orZero_positive (q : Q) : 0 < q -> Handler.orZero (Some q) = q.
Proof.
  intro H. unfold Handler.orZero.
  destruct (Qeq_bool q 0) eqn:E; [|reflexivity].
  apply Qeq_bool_iff in E. rewrite E in H. exfalso. exact (Qlt_irrefl _ H).
Qed.

(** After a match the [matchDetails] of the response carry the result's own
    match type and confidence, never the defaults, and a [similarityScore]
    that is the result's on a similarity match and the default 0 on every
    other match. *)
Theorem handler_matchDetails (labels : list Label) :
  isLandmark (identifyLandmark labels) = true ->
  exists (t : MatchType) (c : Q),
    matchType (identifyLandmark labels) = Some t
    /\ confidence (identifyLandmark labels) = Some c
    /\ 70 <= c
    /\ Handler.detailsMatchType (Handler.matchDetails (identifyLandmark labels))
       = matchTypeString t
    /\ Handler.detailsConfidence (Handler.matchDetails (identifyLandmark labels))
       = c
    /\ (t = similarity ->
        similarityScore (identifyLandmark labels)
        = Some (Handler.detailsSimilarityScore
                  (Handler.matchDetails (identifyLandmark labels)))
        /\ 0 < Handler.detailsSimilarityScore
                 (Handler.matchDetails (identifyLandmark labels)))
    /\ (t <> similarity ->
        Handler.detailsSimilarityScore
          (Handler.matchDetails (identifyLandmark labels)) = 0).
Proof.
  pose proof (identifyLandmark_outcome labels) as H.
  unfold Handler.matchDetails.
  destruct H as [label _ _ Hc | label d _ _ _ _ Hc | label d _ _ He
                 | b d score _ _ _ Hb _ _ _ _ | b _ _ _ _ _ Hc | _ _ _];
    cbn [isLandmark matchType confidence similarityScore
         exactResult alternativeResult similarityResult keywordResult
         unknownResult noLandmark bestScore bestConfidence
         Handler.detailsMatchType Handler.detailsConfidence
         Handler.detailsSimilarityScore];
    try discriminate; intros _.
  - exists exact, (Confidence label).
    rewrite orZero_positive by lra.
    repeat split; auto; try lra; try congruence.
  - exists alternative, (Confidence label).
    rewrite orZero_positive by lra.
    repeat split; auto; try lra; try congruence.
  - pose proof (eligiblePair_positive _ _ _ _ He) as Hpos.
    destruct He as (_ & _ & Hc & _).
    exists similarity, (Confidence label).
    rewrite !orZero_positive by lra.
    repeat split; auto; try lra; try congruence.
  - apply bestLabelOf_nonGeneric in Hb as (_ & _ & Hc).
    exists keyword, (Confidence b).
    rewrite orZero_positive by lra.
    repeat split; auto; try lra; try congruence.
  - exists unknown, (Confidence b).
    rewrite orZero_positive by lra.
    repeat split; auto; try lra; try congruence.
Qed.

Lemma handler_matchDetails_witness :
  exists (t : MatchType) (c : Q),
    Handler.detailsMatchType
      (Handler.matchDetails (identifyLandmark [mkLabel "Paris Tower" 90]))
    = matchTypeString t
    /\ 70 <= c.
Proof.
  destruct (handler_matchDetails [mkLabel "Paris Tower" 90])
    as (t & c & _ & _ & H1 & H2 & _).
  - vm_compute. reflexivity.
  - exists t, c. auto.
Defined.
